(** * Saving and loading models: a shallow embedding of the notebooks

    The notebooks of [intro-to-pytorch] are straight-line Python over
    PyTorch objects.  Python objects are references: a tensor is a cell of
    a store, a [state_dict] is an ordered dictionary of references to the
    live parameter tensors, and an exception leaves every side effect that
    happened before it in place.  The embedding therefore threads an
    explicit world (tensor store, file system, random generator) through a
    state-and-exception monad in which the world survives a raised
    exception. *)

From Stdlib Require Import ZArith QArith List Lia.
From stdpp Require Import base option list gmap strings pretty.

(** ** Tensors and values *)

(** A tensor is its shape ([torch.Size]) and its elements in row-major
    order.  An element is the bit pattern of the stored float; the code
    under study only allocates, copies and compares elements, except for
    the forward pass of the last section. *)
Record tensor := Tensor { t_shape : list Z; t_data : list Z }.

#[global] Instance tensor_eq_dec : EqDecision tensor.
Proof. solve_decision. Defined.

(** A reference to a tensor of the store. *)
Definition loc := nat.

(** A [state_dict] key such as [hidden_layers.0.weight], kept as its
    dot-separated components: module, parameter and buffer names cannot
    contain a dot, so the dotted string and the component list determine
    each other. *)
Definition key := list string.

Definition render (k : key) : string := String.concat "." k.

(** The lines of the error report of [Module.load_state_dict]. *)
Inductive load_error :=
| SizeMismatch (k : key) (from_checkpoint in_model : list Z)
| UnexpectedKeys (ks : list key)
| MissingKeys (ks : list key).

#[global] Instance load_error_eq_dec : EqDecision load_error.
Proof. solve_decision. Defined.

(** Exceptions.  [RuntimeError] is the one [load_state_dict] raises
    ("Error(s) in loading state_dict for Network: ..."), which the
    specification calls [ShapeMismatch]; [FileNotFoundError] and
    [UnpicklingError] are the failures of [torch.load], which the
    specification calls [ArtifactUnreadable]; [MalformedDescriptor] is the
    failure of the model factory; [ShapeError] is the [RuntimeError] of
    an operation on tensors whose shapes do not fit ("mat1 and mat2
    shapes cannot be multiplied").  [DanglingReference] has no Python
    counterpart: it is what reading outside the store gives, and no
    well-formed world raises it. *)
Inductive exn :=
| FileNotFoundError
| UnpicklingError
| KeyError (k : string)
| TypeError
| MalformedDescriptor
| RuntimeError (msgs : list load_error)
| ShapeError
| DanglingReference.

#[global] Instance exn_eq_dec : EqDecision exn.
Proof. solve_decision. Defined.


Definition ShapeMismatch (e : exn) : Prop := ∃ msgs, e = RuntimeError msgs.

(** Python values that the checkpoint dictionary holds.  A tensor value
    is a reference; a state dict is an [OrderedDict] from keys to tensor
    references. *)
Inductive pyval :=
| PyInt (n : Z)
| PyIntList (l : list Z)
| PyTensor (l : loc)
| PyStateDict (sd : list (key * loc)).

(** What [torch.save] is given and [torch.load] returns: a [dict] with
    string keys, in insertion order, or a bare value (cell 7 saves the
    state dict alone). *)
Inductive pyobj :=
| PyDict (d : list (string * pyval))
| PyVal (v : pyval).

(** The same values as they are pickled: tensors by value. *)
Inductive pickled_val :=
| PkInt (n : Z)
| PkIntList (l : list Z)
| PkTensor (t : tensor)
| PkStateDict (sd : list (key * tensor)).

Inductive pickled :=
| PkDict (d : list (string * pickled_val))
| PkVal (v : pickled_val).

(** The content of a file: a pickle written by [torch.save], or bytes
    that [torch.load] cannot read. *)
Inductive blob :=
| Pickle (o : pickled)
| Garbage.

(** ** The world and the monad *)

Record world := World {
  heap : list tensor;        (* the tensor store, indexed by reference *)
  fs : gmap string blob;     (* the files, by path *)
  rng : nat → Z;             (* the output stream of the global generator *)
  rng_pos : nat              (* how much of it has been consumed *)
}.

Inductive result (A : Type) :=
| Ok (a : A)
| Raise (e : exn).
Arguments Ok {A} a.
Arguments Raise {A} e.

Definition M (A : Type) : Type := world → result A * world.

#[global] Instance M_ret : MRet M := λ A a w, (Ok a, w).

#[global] Instance M_bind : MBind M := λ A B f c w,
  match c w with
  | (Ok a, w') => f a w'
  | (Raise e, w') => (Raise e, w')
  end.

Definition raise {A} (e : exn) : M A := λ w, (Raise e, w).

(** A computation without effect: its result, and the world as it is. *)
Definition lift {A} (r : result A) : M A := λ w, (r, w).

Definition set_heap (h : list tensor) (w : world) : world :=
  World h (fs w) (rng w) (rng_pos w).

Definition set_fs (f : gmap string blob) (w : world) : world :=
  World (heap w) f (rng w) (rng_pos w).

(** Allocation of a new tensor object. *)
Definition alloc (t : tensor) : M loc := λ w,
  (Ok (length (heap w)), set_heap (heap w ++ [t]) w).

Definition read (l : loc) : M tensor := λ w,
  match heap w !! l with
  | Some t => (Ok t, w)
  | None => (Raise DanglingReference, w)
  end.

(** [param.copy_(input_param)]: the elements of [src] overwrite those of
    [dst] in place; [dst] keeps its shape. *)
Definition write (l : loc) (t : tensor) : M unit := λ w,
  (Ok (), set_heap (<[l := t]> (heap w)) w).

Definition copy_ (dst src : loc) : M unit :=
  s ← read src;
  d ← read dst;
  write dst (Tensor (t_shape d) (t_data s)).

(** The next [n] outputs of the generator. *)
Definition draw (n : nat) : M (list Z) := λ w,
  (Ok (rng w <$> seq (rng_pos w) n),
   World (heap w) (fs w) (rng w) (rng_pos w + n)).

Fixpoint foldM {A B} (f : A → B → M A) (a : A) (l : list B) : M A :=
  match l with
  | [] => mret a
  | x :: l' => a' ← f a x; foldM f a' l'
  end.

Fixpoint forM {A B} (f : A → M B) (l : list A) : M (list B) :=
  match l with
  | [] => mret []
  | x :: l' => y ← f x; ys ← forM f l'; mret (y :: ys)
  end.

(** ** [torch.nn] *)

Definition numel (s : list Z) : Z := foldr Z.mul 1%Z s.

(** A fresh parameter of shape [s], filled by the initialiser from the
    generator. *)
Definition nn_Parameter (s : list Z) : M loc :=
  data ← draw (Z.to_nat (numel s));
  alloc (Tensor s data).

Record Linear := {
  in_features : Z;
  out_features : Z;
  weight : loc;
  bias : loc
}.

(** [nn.Linear(in_features, out_features)]: a weight of shape
    [[out_features, in_features]] and a bias of shape [[out_features]],
    as the shapes printed in the notebook show. *)
Definition nn_Linear (in_f out_f : Z) : M Linear :=
  w ← nn_Parameter [out_f; in_f];
  b ← nn_Parameter [out_f];
  mret {| in_features := in_f; out_features := out_f; weight := w; bias := b |}.

(** What [load_state_dict] and [state_dict] see of one module of the
    tree: its dotted prefix, its own parameters by name and the names of
    its children.  A live module holds references ([P := loc]); the
    same type with [P := list Z] describes the shapes alone. *)
Record module_view (P : Type) := {
  mv_prefix : key;
  mv_params : list (string * P);
  mv_modules : list string
}.
Arguments mv_prefix {P} _.
Arguments mv_params {P} _.
Arguments mv_modules {P} _.

(** The interface of [nn.Module] that the notebooks use: the modules of
    the tree in the order in which [load] and [state_dict] visit them
    (each module before its children). *)
Class nn_Module (T : Type) := {
  named_modules : T → list (module_view loc);
  is_training : T → bool;
  train : bool → T → T
}.

(** A [Linear] module has two parameters and no children. *)
Definition linear_view (prefix : key) (l : Linear) : module_view loc :=
  {| mv_prefix := prefix;
     mv_params := [("weight", weight l); ("bias", bias l)];
     mv_modules := [] |}.

(** [model.eval()] is [model.train(False)]. *)
Definition eval {T} `{nn_Module T} (m : T) : T := train false m.

Definition view_state {P} (v : module_view P) : list (key * P) :=
  (λ '(name, l), (mv_prefix v ++ [name], l)) <$> mv_params v.

(** [model.state_dict()]: the parameters of every module, keyed by
    prefix and name.  The values are the live tensors themselves, not
    copies. *)
Definition state_dict {T} `{nn_Module T} (m : T) : list (key * loc) :=
  concat (view_state <$> named_modules m).

(** [d[k]] on a dictionary kept in insertion order. *)
Fixpoint getitem {K A} `{EqDecision K} (d : list (K * A)) (k : K) : option A :=
  match d with
  | [] => None
  | (k', v) :: d' => if decide (k' = k) then Some v else getitem d' k
  end.

(** *** [Module.load_state_dict] (strict)

    As in [torch/nn/modules/module.py], the file of the traceback of
    cell 10.  The three accumulators are lists that every module of the
    tree appends to. *)
Record load_acc := {
  missing_keys : list key;
  unexpected_keys : list key;
  error_msgs : list load_error
}.

Definition add_missing (k : key) (a : load_acc) : load_acc :=
  {| missing_keys := missing_keys a ++ [k];
     unexpected_keys := unexpected_keys a;
     error_msgs := error_msgs a |}.

Definition add_unexpected (ks : list key) (a : load_acc) : load_acc :=
  {| missing_keys := missing_keys a;
     unexpected_keys := unexpected_keys a ++ ks;
     error_msgs := error_msgs a |}.

Definition add_error (e : load_error) (a : load_acc) : load_acc :=
  {| missing_keys := missing_keys a;
     unexpected_keys := unexpected_keys a;
     error_msgs := error_msgs a ++ [e] |}.

(** One parameter of one module: [key = prefix + name]; a key that the
    state dict lacks is missing; a tensor of another shape is reported
    and skipped; a tensor of the same shape is copied into the parameter
    at once. *)
Definition load_param (sd : list (key * loc)) (prefix : key)
    (a : load_acc) (np : string * loc) : M load_acc :=
  let k := prefix ++ [np.1] in
  match getitem sd k with
  | Some input_param =>
      i ← read input_param;
      p ← read np.2;
      if decide (t_shape i = t_shape p)
      then _ ← copy_ np.2 input_param; mret a
      else mret (add_error (SizeMismatch k (t_shape i) (t_shape p)) a)
  | None => mret (add_missing k a)
  end.

(** [key[len(prefix):]] when [key.startswith(prefix)], on components;
    [prefix] ends with a dot, so that the key has a component left. *)
Fixpoint strip_prefix (prefix k : key) : option key :=
  match prefix, k with
  | [], _ => Some k
  | p :: prefix', c :: k' => if decide (p = c) then strip_prefix prefix' k' else None
  | _ :: _, [] => None
  end.

(** A key of the state dict under the prefix of this module whose next
    component is neither a child nor a parameter of the module. *)
Definition is_unexpected {P} (v : module_view P) (k : key) : bool :=
  match strip_prefix (mv_prefix v) k with
  | Some (input_name :: _) =>
      negb (bool_decide (input_name ∈ mv_modules v))
      && negb (bool_decide (input_name ∈ (mv_params v).*1))
  | _ => false
  end.

Definition _load_from_state_dict (sd : list (key * loc))
    (a : load_acc) (v : module_view loc) : M load_acc :=
  a ← foldM (load_param sd (mv_prefix v)) a (mv_params v);
  mret (add_unexpected (filter (λ k, is_unexpected v k) sd.*1) a).

(** The report: the size mismatches in the order met, with the
    unexpected keys and then the missing keys inserted in front. *)
Definition report (a : load_acc) : list load_error :=
  (if decide (missing_keys a = []) then [] else [MissingKeys (missing_keys a)])
  ++ (if decide (unexpected_keys a = []) then [] else [UnexpectedKeys (unexpected_keys a)])
  ++ error_msgs a.

Definition load_state_dict {T} `{nn_Module T} (model : T)
    (sd : list (key * loc)) : M unit :=
  a ← foldM (_load_from_state_dict sd) (Build_load_acc [] [] []) (named_modules model);
  if decide (report a = []) then mret () else raise (RuntimeError (report a)).

(** ** [torch.save] and [torch.load] *)

Definition read_file (path : string) : M (option blob) := λ w, (Ok (fs w !! path), w).

Definition write_file (path : string) (b : blob) : M unit := λ w,
  (Ok (), set_fs (<[path := b]> (fs w)) w).

Module torch.

(** Pickling reads every tensor the object refers to: the file holds
    the elements as they are at the time of the call. *)
Definition pickle_entry (e : key * loc) : M (key * tensor) :=
  t ← read e.2; mret (e.1, t).

Definition pickle_val (v : pyval) : M pickled_val :=
  match v with
  | PyInt n => mret (PkInt n)
  | PyIntList l => mret (PkIntList l)
  | PyTensor l => t ← read l; mret (PkTensor t)
  | PyStateDict sd => ts ← forM pickle_entry sd; mret (PkStateDict ts)
  end.

Definition pickle_item (e : string * pyval) : M (string * pickled_val) :=
  v ← pickle_val e.2; mret (e.1, v).

Definition pickle (o : pyobj) : M pickled :=
  match o with
  | PyDict d => d' ← forM pickle_item d; mret (PkDict d')
  | PyVal v => v' ← pickle_val v; mret (PkVal v')
  end.

Definition save (obj : pyobj) (path : string) : M unit :=
  p ← pickle obj;
  write_file path (Pickle p).

(** Unpickling creates a new tensor object for every pickled tensor. *)
Definition unpickle_entry (e : key * tensor) : M (key * loc) :=
  l ← alloc e.2; mret (e.1, l).

Definition unpickle_val (v : pickled_val) : M pyval :=
  match v with
  | PkInt n => mret (PyInt n)
  | PkIntList l => mret (PyIntList l)
  | PkTensor t => l ← alloc t; mret (PyTensor l)
  | PkStateDict ts => sd ← forM unpickle_entry ts; mret (PyStateDict sd)
  end.

Definition unpickle_item (e : string * pickled_val) : M (string * pyval) :=
  v ← unpickle_val e.2; mret (e.1, v).

Definition unpickle (p : pickled) : M pyobj :=
  match p with
  | PkDict d => d' ← forM unpickle_item d; mret (PyDict d')
  | PkVal v => v' ← unpickle_val v; mret (PyVal v')
  end.

Definition load (path : string) : M pyobj :=
  b ← read_file path;
  match b with
  | None => raise FileNotFoundError
  | Some Garbage => raise UnpicklingError
  | Some (Pickle p) => unpickle p
  end.

End torch.

(** ** [fc_model] *)

Module fc_model.

(** An object of class [Network] as the notebook prints it: the
    [ModuleList] of hidden layers, the output layer, the [Dropout]
    module with its probability, and the training flag of
    [nn.Module]. *)
Record t := {
  hidden_layers : list Linear;
  output : Linear;
  dropout : Q;
  training : bool
}.

Definition well_formed (input_size output_size : Z) (hidden : list Z) : bool :=
  bool_decide (0 < input_size)%Z
  && bool_decide (0 < output_size)%Z
  && forallb (λ h, bool_decide (0 < h)%Z) hidden.

(** The hidden layers: each maps the width before it to its own. *)
Fixpoint hidden (prev : Z) (sizes : list Z) : M (list Linear) :=
  match sizes with
  | [] => mret []
  | h :: sizes' =>
      l ← nn_Linear prev h;
      ls ← hidden h sizes';
      mret (l :: ls)
  end.

(** Modelled from the spec: [fc_model.py] is not among the sources, only
    calls of [fc_model.Network(input_size, output_size, hidden_layers)]
    and the printed modules are.  The factory refuses a descriptor with
    a width that is not positive before it allocates anything;
    otherwise it builds one input layer of width [input_size], hidden
    layers whose output widths are [hidden_layers] in order, and one
    output layer of width [output_size], each initialised from the
    generator.  A new module is in training mode; the dropout
    probability is the 0.5 that the notebook prints. *)
Definition Network (input_size output_size : Z) (hidden_layers : list Z) : M t :=
  if well_formed input_size output_size hidden_layers then
    hs ← hidden input_size hidden_layers;
    out ← nn_Linear (List.last hidden_layers input_size) output_size;
    mret {| hidden_layers := hs; output := out; dropout := (1 # 2)%Q; training := true |}
  else raise MalformedDescriptor.

(** The module tree: the network, its [ModuleList] (children named by
    their index), the hidden layers, the output layer, the dropout
    module. *)
Definition modules (m : t) : list (module_view loc) :=
  {| mv_prefix := []; mv_params := [];
     mv_modules := ["hidden_layers"; "output"; "dropout"] |}
  :: {| mv_prefix := ["hidden_layers"]; mv_params := [];
        mv_modules := imap (λ i _, pretty i) (hidden_layers m) |}
  :: imap (λ i l, linear_view ["hidden_layers"; pretty i] l) (hidden_layers m)
  ++ [ linear_view ["output"] (output m);
       {| mv_prefix := ["dropout"]; mv_params := []; mv_modules := [] |} ].

Definition set_training (mode : bool) (m : t) : t :=
  {| hidden_layers := hidden_layers m; output := output m;
     dropout := dropout m; training := mode |}.

End fc_model.

#[global] Instance Network_Module : nn_Module fc_model.t := {
  named_modules := fc_model.modules;
  is_training := fc_model.training;
  train := fc_model.set_training
}.

(** ** The notebook "Saving and Loading Models" *)

(** Cell 11: the dictionary that is saved.  The sizes of the input and
    of the output are the literals 784 and 10; the hidden sizes are read
    off the layers of the model; the state dict is that of the model. *)
Definition checkpoint (model : fc_model.t) : list (string * pyval) :=
  [ ("input_size", PyInt 784);
    ("output_size", PyInt 10);
    ("hidden_layers", PyIntList (out_features <$> fc_model.hidden_layers model));
    ("state_dict", PyStateDict (state_dict model)) ].

Definition save_checkpoint (model : fc_model.t) : M unit :=
  torch.save (PyDict (checkpoint model)) "checkpoint.pth".

(** [checkpoint[k]] on whatever [torch.load] returned. *)
Definition subscript (o : pyobj) (k : string) : M pyval :=
  match o with
  | PyDict d =>
      match getitem d k with Some v => mret v | None => raise (KeyError k) end
  | PyVal (PyStateDict sd) =>
      match getitem sd [k] with Some l => mret (PyTensor l) | None => raise (KeyError k) end
  | PyVal _ => raise TypeError
  end.

Definition as_int (v : pyval) : M Z :=
  match v with PyInt n => mret n | _ => raise TypeError end.

Definition as_int_list (v : pyval) : M (list Z) :=
  match v with PyIntList l => mret l | _ => raise TypeError end.

Definition as_state_dict (v : pyval) : M (list (key * loc)) :=
  match v with PyStateDict sd => mret sd | _ => raise TypeError end.

(** Cell 12.  The three arguments are evaluated, then the network is
    built, then the state dict is looked up and loaded. *)
Definition load_checkpoint (filepath : string) : M fc_model.t :=
  checkpoint ← torch.load filepath;
  input_size ← subscript checkpoint "input_size";
  output_size ← subscript checkpoint "output_size";
  hidden_layers ← subscript checkpoint "hidden_layers";
  input_size ← as_int input_size;
  output_size ← as_int output_size;
  hidden_layers ← as_int_list hidden_layers;
  model ← fc_model.Network input_size output_size hidden_layers;
  sd ← subscript checkpoint "state_dict";
  sd ← as_state_dict sd;
  _ ← load_state_dict model sd;
  mret model.

(** The empty world with generator stream [g]. *)
Definition fresh_world (g : nat → Z) : world := World [] ∅ g 0.

Definition run {A} (c : M A) (w : world) : result A * world := c w.


(** ** What a strict load reports and what it writes, as pure functions

    The report of [load_state_dict] depends on the keys and the shapes
    only.  [check_param], [check_view] and [check_views] follow
    [load_param], [_load_from_state_dict] and the traversal of
    [load_state_dict] step by step on the shapes; [param_effect] is the
    write of one step on the store. *)

Definition check_param (src : list (key * list Z)) (prefix : key)
    (a : load_acc) (np : string * list Z) : load_acc :=
  let k := prefix ++ [np.1] in
  match getitem src k with
  | Some s => if decide (s = np.2) then a else add_error (SizeMismatch k s np.2) a
  | None => add_missing k a
  end.

Definition check_view (src : list (key * list Z))
    (a : load_acc) (v : module_view (list Z)) : load_acc :=
  add_unexpected (filter (λ k, is_unexpected v k) src.*1)
    (foldl (check_param src (mv_prefix v)) a (mv_params v)).

Definition check_views (src : list (key * list Z))
    (vs : list (module_view (list Z))) : load_acc :=
  foldl (check_view src) (Build_load_acc [] [] []) vs.

Definition strict_report (src : list (key * list Z))
    (vs : list (module_view (list Z))) : list load_error :=
  report (check_views src vs).

Definition param_effect (sd : list (key * loc)) (h : list tensor)
    (e : key * loc) : list tensor :=
  match getitem sd e.1 with
  | Some input_param =>
      match h !! input_param, h !! e.2 with
      | Some i, Some p =>
          if decide (t_shape i = t_shape p)
          then <[e.2 := Tensor (t_shape p) (t_data i)]> h
          else h
      | _, _ => h
      end
  | None => h
  end.

(** The outcome of a strict load, from its report. *)
Definition outcome (msgs : list load_error) : result unit :=
  if decide (msgs = []) then Ok () else Raise (RuntimeError msgs).

(** What a parameter holds after its own step: the tensor of the state
    dict under its key when there is one of the same shape, what it
    held otherwise. *)
Definition loaded (sd : list (key * loc)) (h : list tensor) (e : key * loc) : option tensor :=
  match getitem sd e.1 with
  | Some input_param =>
      match h !! input_param, h !! e.2 with
      | Some i, Some p => if decide (t_shape i = t_shape p) then Some i else Some p
      | _, p => p
      end
  | None => h !! e.2
  end.

(** The shape of the tensor at a reference, and a view or a state dict
    with every reference replaced by the shape found there. *)
Definition shape_at (h : list tensor) (l : loc) : option (list Z) :=
  t_shape <$> h !! l.

Definition shapes_of {K} (h : list tensor) (ps : list (K * loc)) : option (list (K * list Z)) :=
  mapM (λ e, s ← shape_at h e.2; Some (e.1, s)) ps.

Definition values_of {K} (h : list tensor) (ps : list (K * loc)) : option (list (K * tensor)) :=
  mapM (λ e, t ← h !! e.2; Some (e.1, t)) ps.

Definition view_shapes (h : list tensor) (v : module_view loc) : option (module_view (list Z)) :=
  ps ← shapes_of h (mv_params v);
  Some {| mv_prefix := mv_prefix v; mv_params := ps; mv_modules := mv_modules v |}.

(** The Parameter Store of a model in a world: its state dict with the
    tensors read out. *)
Definition param_store {T} `{nn_Module T} (w : world) (m : T) : option (list (key * tensor)) :=
  values_of (heap w) (state_dict m).

(** ** The vocabulary of the specification *)

(** The Architecture Descriptor: the three arguments of the factory. *)
Record descriptor := {
  input_size : Z;
  output_size : Z;
  hidden_sizes : list Z
}.

Definition valid (d : descriptor) : Prop :=
  (0 < input_size d)%Z ∧ (0 < output_size d)%Z ∧ Forall (λ h, (0 < h)%Z) (hidden_sizes d).

Definition build (d : descriptor) : M fc_model.t :=
  fc_model.Network (input_size d) (output_size d) (hidden_sizes d).

(** The shapes of the parameters that the widths imply, module by
    module: a function of the descriptor alone. *)
Definition linear_shapes (prefix : key) (in_f out_f : Z) : module_view (list Z) :=
  {| mv_prefix := prefix;
     mv_params := [("weight", [out_f; in_f]); ("bias", [out_f])];
     mv_modules := [] |}.

Fixpoint hidden_shapes (i : nat) (prev : Z) (sizes : list Z) : list (module_view (list Z)) :=
  match sizes with
  | [] => []
  | h :: sizes' =>
      linear_shapes ["hidden_layers"; pretty i] prev h :: hidden_shapes (S i) h sizes'
  end.

Definition module_shapes (d : descriptor) : list (module_view (list Z)) :=
  {| mv_prefix := []; mv_params := [];
     mv_modules := ["hidden_layers"; "output"; "dropout"] |}
  :: {| mv_prefix := ["hidden_layers"]; mv_params := [];
        mv_modules := imap (λ i _, pretty i) (hidden_sizes d) |}
  :: hidden_shapes 0 (input_size d) (hidden_sizes d)
  ++ [ linear_shapes ["output"] (List.last (hidden_sizes d) (input_size d)) (output_size d);
       {| mv_prefix := ["dropout"]; mv_params := []; mv_modules := [] |} ].

Definition param_shapes (d : descriptor) : list (key * list Z) :=
  concat (view_state <$> module_shapes d).

(** A model with the layers of [d] whose parameters are in the store
    with the shapes of [d]: what [build d] returns, and what remains of it
    after any number of training steps, which change elements in place
    and nothing else. *)
Definition linear_ok (h : list tensor) (in_f out_f : Z) (l : Linear) : Prop :=
  in_features l = in_f ∧ out_features l = out_f
  ∧ shape_at h (weight l) = Some [out_f; in_f]
  ∧ shape_at h (bias l) = Some [out_f].

Fixpoint hidden_ok (h : list tensor) (prev : Z) (sizes : list Z) (ls : list Linear) : Prop :=
  match sizes, ls with
  | [], [] => True
  | s :: sizes', l :: ls' => linear_ok h prev s l ∧ hidden_ok h s sizes' ls'
  | _, _ => False
  end.

Definition built_from (d : descriptor) (w : world) (m : fc_model.t) : Prop :=
  hidden_ok (heap w) (input_size d) (hidden_sizes d) (fc_model.hidden_layers m)
  ∧ linear_ok (heap w) (List.last (hidden_sizes d) (input_size d)) (output_size d)
      (fc_model.output m).

(** In-place updates of tensors of the store, as an optimiser step
    makes them: the element lists change, the shapes stay. *)
Definition update (w : world) (u : loc * list Z) : world :=
  match heap w !! u.1 with
  | Some t => set_heap (<[u.1 := Tensor (t_shape t) u.2]> (heap w)) w
  | None => w
  end.

Definition updates (us : list (loc * list Z)) (w : world) : world := foldl update w us.

(** Save with cell 11, load with cell 12, compare the stores. *)
Definition round_trip (w : world) (m : fc_model.t) : Prop :=
  ∃ m' w', load_checkpoint "checkpoint.pth" (save_checkpoint m w).2 = (Ok m', w')
           ∧ is_Some (param_store w m)
           ∧ param_store w' m' = param_store w m.

(** The architecture a model really has, read off its layers, and the
    one a checkpoint dictionary records. *)
Definition input_width (m : fc_model.t) : Z :=
  match fc_model.hidden_layers m with
  | l :: _ => in_features l
  | [] => in_features (fc_model.output m)
  end.

Definition output_width (m : fc_model.t) : Z := out_features (fc_model.output m).

Definition architecture (m : fc_model.t) : descriptor :=
  {| input_size := input_width m;
     output_size := output_width m;
     hidden_sizes := out_features <$> fc_model.hidden_layers m |}.

Definition recorded (c : list (string * pyval)) : option descriptor :=
  match getitem c "input_size", getitem c "output_size", getitem c "hidden_layers" with
  | Some (PyInt i), Some (PyInt o), Some (PyIntList hs) =>
      Some {| input_size := i; output_size := o; hidden_sizes := hs |}
  | _, _, _ => None
  end.

(** ** The notebook "Inference and Validation": [DropoutClassifier]

    The forward pass computes with the elements.  They are taken as
    exact integers, an idealisation of the floats that keeps the control
    flow: which operations run, in which order, on which random draws.
    [F.log_softmax] needs exponentials and stays a parameter. *)

Module F.

Definition dot (a b : list Z) : Z := foldr Z.add 0%Z (zip_with Z.mul a b).

(** The first [n] rows of length [k] of a row-major element list. *)
Fixpoint rows (n k : nat) (l : list Z) : list (list Z) :=
  match n with
  | 0 => []
  | S n' => take k l :: rows n' k (drop k l)
  end.

(** [F.linear(input, weight, bias)]: [input @ weight.T + bias], or the
    error of shapes that do not fit.  It has no effect on the world. *)
Definition linear (input weight bias : tensor) : result tensor :=
  match t_shape input, t_shape weight, t_shape bias with
  | [n; i], [o; i'], [o'] =>
      if decide (i = i' ∧ o = o') then
        let xs := rows (Z.to_nat n) (Z.to_nat i) (t_data input) in
        let ws := rows (Z.to_nat o) (Z.to_nat i) (t_data weight) in
        Ok (Tensor [n; o]
              (concat ((λ x, zip_with Z.add (dot x <$> ws) (t_data bias)) <$> xs)))
      else Raise ShapeError
  | _, _, _ => Raise ShapeError
  end.

Definition relu (input : tensor) : tensor :=
  Tensor (t_shape input) (Z.max 0 <$> t_data input).

(** [F.dropout(input, p=0.5, training=True, inplace=False)] with the
    default [p]: when [training] holds, every element is zeroed or
    kept and scaled by [1/(1-p) = 2] according to one draw from the
    generator (kept when the draw is odd); otherwise the input is
    returned as it is. *)
Definition dropout (input : tensor) (training : bool) : M tensor :=
  if training then
    mask ← draw (length (t_data input));
    mret (Tensor (t_shape input)
            (zip_with (λ x r, if Z.odd r then (2 * x)%Z else 0%Z) (t_data input) mask))
  else mret input.

(** [x.view(x.shape[0], -1)]. *)
Definition flatten (x : tensor) : result tensor :=
  match t_shape x with
  | n :: rest => Ok (Tensor [n; numel rest] (t_data x))
  | [] => Raise ShapeError
  end.

End F.

(** Calling a [Linear] module: the live weight and bias are read. *)
Definition Linear_call (l : Linear) (x : tensor) : M tensor :=
  w ← read (weight l);
  b ← read (bias l);
  lift (F.linear x w b).

Module DropoutClassifier.

Record t := {
  fc1 : Linear;
  fc2 : Linear;
  fc3 : Linear;
  fc4 : Linear;
  training : bool
}.

(** [__init__] *)
Definition init : M t :=
  l1 ← nn_Linear 784 256;
  l2 ← nn_Linear 256 128;
  l3 ← nn_Linear 128 64;
  l4 ← nn_Linear 64 10;
  mret {| fc1 := l1; fc2 := l2; fc3 := l3; fc4 := l4; training := true |}.

Section Forward.

Variable log_softmax : tensor → tensor.

(** [forward]: the three calls [F.dropout(...)] pass no [training]
    argument, so that it has its default [True]; [self.training] is
    not read. *)
Definition forward (self : t) (x : tensor) : M tensor :=
  x ← lift (F.flatten x);
  x ← Linear_call (fc1 self) x;
  x ← F.dropout (F.relu x) true;
  x ← Linear_call (fc2 self) x;
  x ← F.dropout (F.relu x) true;
  x ← Linear_call (fc3 self) x;
  x ← F.dropout (F.relu x) true;
  x ← Linear_call (fc4 self) x;
  mret (log_softmax x).

End Forward.

Definition set_training (mode : bool) (m : t) : t :=
  {| fc1 := fc1 m; fc2 := fc2 m; fc3 := fc3 m; fc4 := fc4 m; training := mode |}.

Definition modules (m : t) : list (module_view loc) :=
  [ {| mv_prefix := []; mv_params := []; mv_modules := ["fc1"; "fc2"; "fc3"; "fc4"] |};
    linear_view ["fc1"] (fc1 m);
    linear_view ["fc2"] (fc2 m);
    linear_view ["fc3"] (fc3 m);
    linear_view ["fc4"] (fc4 m) ].

End DropoutClassifier.

#[global] Instance DropoutClassifier_Module : nn_Module DropoutClassifier.t := {
  named_modules := DropoutClassifier.modules;
  is_training := DropoutClassifier.training;
  train := DropoutClassifier.set_training
}.

(** * Proofs *)

(** ** Running the monad *)

Lemma set_heap_id w : set_heap (heap w) w = w.
Proof. by destruct w. Qed.

Lemma set_heap_set_heap h h' w : set_heap h (set_heap h' w) = set_heap h w.
Proof. done. Qed.

Lemma bind_run {A B} (c : M A) (k : A → M B) w :
  (c ≫= k) w = match c w with
               | (Ok a, w') => k a w'
               | (Raise e, w') => (Raise e, w')
               end.
Proof. done. Qed.

Lemma bind_ok {A B} (c : M A) (k : A → M B) w a w' :
  c w = (Ok a, w') → (c ≫= k) w = k a w'.
Proof. intros Hc. by rewrite bind_run, Hc. Qed.

Lemma bind_raise {A B} (c : M A) (k : A → M B) w e w' :
  c w = (Raise e, w') → (c ≫= k) w = (Raise e, w').
Proof. intros Hc. by rewrite bind_run, Hc. Qed.

Lemma read_ok w l t : heap w !! l = Some t → read l w = (Ok t, w).
Proof. intros Hl. unfold read. by rewrite Hl. Qed.

Lemma copy_ok w dst src s d :
  heap w !! src = Some s → heap w !! dst = Some d →
  copy_ dst src w = (Ok (), set_heap (<[dst := Tensor (t_shape d) (t_data s)]> (heap w)) w).
Proof.
  intros Hs Hd. unfold copy_.
  rewrite (bind_ok _ _ _ _ _ (read_ok _ _ _ Hs)).
  by rewrite (bind_ok _ _ _ _ _ (read_ok _ _ _ Hd)).
Qed.

(** ** Shapes are never changed by a load *)

Lemma shape_at_fmap h l : shape_at h l = (t_shape <$> h) !! l.
Proof. unfold shape_at. by rewrite list_lookup_fmap. Qed.

Lemma shape_at_Some h l s :
  shape_at h l = Some s ↔ ∃ t, h !! l = Some t ∧ t_shape t = s.
Proof.
  unfold shape_at. destruct (h !! l) as [t|]; simpl; split.
  - intros [= <-]. eauto.
  - by intros (t' & [= <-] & <-).
  - done.
  - by intros (? & ? & ?).
Qed.

Lemma insert_same_shape (h : list tensor) l p data :
  h !! l = Some p → t_shape <$> <[l := Tensor (t_shape p) data]> h = t_shape <$> h.
Proof.
  intros Hl. rewrite list_fmap_insert. simpl.
  apply list_insert_id. by rewrite list_lookup_fmap, Hl.
Qed.

Lemma param_effect_shapes sd h e :
  t_shape <$> param_effect sd h e = t_shape <$> h.
Proof.
  unfold param_effect.
  destruct (getitem sd e.1) as [ip|]; [|done].
  destruct (h !! ip) as [i|]; [|done].
  destruct (h !! e.2) as [p|] eqn:Hp; [|done].
  case_decide; [|done]. by apply insert_same_shape.
Qed.

Lemma shapes_of_ext {K} h h' (ps : list (K * loc)) :
  t_shape <$> h' = t_shape <$> h → shapes_of h' ps = shapes_of h ps.
Proof.
  intros Heq. unfold shapes_of. induction ps as [|e ps IH]; [done|].
  simpl. rewrite !shape_at_fmap, Heq. by rewrite IH.
Qed.

Lemma view_shapes_ext h h' v :
  t_shape <$> h' = t_shape <$> h → view_shapes h' v = view_shapes h v.
Proof. intros Heq. unfold view_shapes. by rewrite (shapes_of_ext h h'). Qed.

Lemma shapes_of_cons {K} h (e : K * loc) ps r :
  shapes_of h (e :: ps) = Some r ↔
  ∃ s r', shape_at h e.2 = Some s ∧ shapes_of h ps = Some r' ∧ r = (e.1, s) :: r'.
Proof.
  unfold shapes_of. simpl.
  destruct (shape_at h e.2) as [s|]; simpl.
  - destruct (mapM _ ps) as [r'|]; simpl; split.
    + intros [= <-]. eauto.
    + by intros (? & ? & [= <-] & [= <-] & ->).
    + done.
    + by intros (? & ? & ? & ? & ?).
  - split; [done|]. by intros (? & ? & ? & ?).
Qed.

Lemma shapes_of_fst {K} h (ps : list (K * loc)) r :
  shapes_of h ps = Some r → r.*1 = ps.*1.
Proof.
  revert r. induction ps as [|e ps IH]; intros r.
  - by intros [= <-].
  - rewrite shapes_of_cons. intros (s & r' & _ & Hr' & ->). simpl. f_equal. eauto.
Qed.

Lemma getitem_shapes_of h (sd : list (key * loc)) src k :
  shapes_of h sd = Some src → getitem src k = getitem sd k ≫= shape_at h.
Proof.
  revert src. induction sd as [|[k' l] sd IH]; intros src.
  - by intros [= <-].
  - rewrite shapes_of_cons. intros (s & r' & Hs & Hr' & ->). simpl in *.
    case_decide; [done|]. eauto.
Qed.

(** ** [load_state_dict] runs as its pure description says *)

Lemma getitem_shape_at h (sd : list (key * loc)) src k ip :
  shapes_of h sd = Some src → getitem sd k = Some ip → is_Some (shape_at h ip).
Proof.
  revert src. induction sd as [|[k' l] sd IH]; intros src; [done|].
  rewrite shapes_of_cons. intros (s & r' & Hs & Hr' & ->). simpl in *.
  case_decide; [|by eauto]. intros [= <-]. eauto.
Qed.

Lemma load_param_run sd src prefix a n l s w :
  shapes_of (heap w) sd = Some src →
  shape_at (heap w) l = Some s →
  load_param sd prefix a (n, l) w
  = (Ok (check_param src prefix a (n, s)),
     set_heap (param_effect sd (heap w) (prefix ++ [n], l)) w).
Proof.
  intros Hsrc Hl. unfold load_param, check_param, param_effect. simpl.
  rewrite (getitem_shapes_of _ _ _ (prefix ++ [n]) Hsrc).
  destruct (getitem sd (prefix ++ [n])) as [ip|] eqn:Hget; simpl.
  - apply shape_at_Some in Hl as (p & Hp & <-).
    destruct (getitem_shape_at _ _ _ _ _ Hsrc Hget) as [si Hi].
    rewrite Hi. apply shape_at_Some in Hi as (i & Hi & <-).
    rewrite (bind_ok _ _ _ _ _ (read_ok _ _ _ Hi)).
    rewrite (bind_ok _ _ _ _ _ (read_ok _ _ _ Hp)).
    rewrite Hi, Hp. case_decide.
    + by rewrite (bind_ok _ _ _ _ _ (copy_ok _ _ _ _ _ Hi Hp)).
    + by rewrite set_heap_id.
  - by rewrite set_heap_id.
Qed.

Lemma load_params_run sd src prefix ps : ∀ sps a w,
  shapes_of (heap w) sd = Some src →
  shapes_of (heap w) ps = Some sps →
  foldM (load_param sd prefix) a ps w
  = (Ok (foldl (check_param src prefix) a sps),
     set_heap (foldl (param_effect sd) (heap w)
                 ((λ '(n, l), (prefix ++ [n], l)) <$> ps)) w).
Proof.
  induction ps as [|[n l] ps IH]; intros sps a w Hsrc.
  - intros [= <-]. simpl. by rewrite set_heap_id.
  - rewrite shapes_of_cons. intros (s & sps' & Hs & Hsps & ->). simpl in *.
    rewrite (bind_ok _ _ _ _ _ (load_param_run _ _ prefix a n l s w Hsrc Hs)).
    set (h' := param_effect sd (heap w) (prefix ++ [n], l)).
    assert (Hsh : t_shape <$> h' = t_shape <$> heap w) by apply param_effect_shapes.
    rewrite (IH sps' _ (set_heap h' w)); simpl.
    + done.
    + by rewrite (shapes_of_ext _ _ _ Hsh).
    + by rewrite (shapes_of_ext _ _ _ Hsh).
Qed.

Lemma is_unexpected_view_shapes h v sv k :
  view_shapes h v = Some sv → is_unexpected v k = is_unexpected sv k.
Proof.
  unfold view_shapes. destruct (shapes_of h (mv_params v)) as [ps|] eqn:Hps; [|done].
  intros [= <-]. unfold is_unexpected. simpl.
  by rewrite <-(shapes_of_fst _ _ _ Hps).
Qed.

Lemma foldl_param_effect_shapes sd es : ∀ h,
  t_shape <$> foldl (param_effect sd) h es = t_shape <$> h.
Proof.
  induction es as [|e es IH]; intros h; [done|].
  simpl. by rewrite IH, param_effect_shapes.
Qed.

Lemma load_view_run sd src a v sv w :
  shapes_of (heap w) sd = Some src →
  view_shapes (heap w) v = Some sv →
  _load_from_state_dict sd a v w
  = (Ok (check_view src a sv),
     set_heap (foldl (param_effect sd) (heap w) (view_state v)) w).
Proof.
  intros Hsrc Hv. unfold _load_from_state_dict, check_view.
  assert (Hv' := Hv). unfold view_shapes in Hv'.
  destruct (shapes_of (heap w) (mv_params v)) as [ps|] eqn:Hps; [|done].
  injection Hv' as <-. simpl.
  rewrite (bind_ok _ _ _ _ _ (load_params_run _ _ _ _ _ a w Hsrc Hps)).
  unfold mret, M_ret, view_state. rewrite (shapes_of_fst _ _ _ Hsrc).
  do 3 f_equal. apply list_filter_iff. intros k.
  by rewrite (is_unexpected_view_shapes _ _ _ k Hv).
Qed.

Lemma load_views_run sd src vs : ∀ svs a w,
  shapes_of (heap w) sd = Some src →
  Forall2 (λ v sv, view_shapes (heap w) v = Some sv) vs svs →
  foldM (_load_from_state_dict sd) a vs w
  = (Ok (foldl (check_view src) a svs),
     set_heap (foldl (param_effect sd) (heap w) (concat (view_state <$> vs))) w).
Proof.
  induction vs as [|v vs IH]; intros svs a w Hsrc Hvs.
  - apply Forall2_nil_inv_l in Hvs as ->. simpl. by rewrite set_heap_id.
  - apply Forall2_cons_inv_l in Hvs as (sv & svs' & Hv & Hvs & ->). simpl.
    rewrite (bind_ok _ _ _ _ _ (load_view_run _ _ a _ _ w Hsrc Hv)).
    set (h' := foldl (param_effect sd) (heap w) (view_state v)).
    assert (Hsh : t_shape <$> h' = t_shape <$> heap w)
      by apply foldl_param_effect_shapes.
    rewrite (IH svs' _ (set_heap h' w)); simpl.
    + by rewrite foldl_app.
    + by rewrite (shapes_of_ext _ _ _ Hsh).
    + eapply Forall2_impl; [exact Hvs|]. intros v' sv' Hv'. simpl in *.
      by rewrite (view_shapes_ext _ _ _ Hsh).
Qed.

Lemma load_state_dict_run {T} `{nn_Module T} (m : T) sd src svs w :
  shapes_of (heap w) sd = Some src →
  Forall2 (λ v sv, view_shapes (heap w) v = Some sv) (named_modules m) svs →
  load_state_dict m sd w
  = (outcome (strict_report src svs),
     set_heap (foldl (param_effect sd) (heap w) (state_dict m)) w).
Proof.
  intros Hsrc Hvs. unfold load_state_dict.
  rewrite (bind_ok _ _ _ _ _ (load_views_run _ _ _ _ _ w Hsrc Hvs)).
  unfold outcome, strict_report, check_views, state_dict. by case_decide.
Qed.

(** ** What the writes of a load leave in the store *)

Lemma param_effect_length sd h e : length (param_effect sd h e) = length h.
Proof.
  rewrite <-(length_fmap t_shape), param_effect_shapes. apply length_fmap.
Qed.

Lemma param_effect_other sd h e l : l ≠ e.2 → param_effect sd h e !! l = h !! l.
Proof.
  intros Hne. unfold param_effect.
  destruct (getitem sd e.1) as [ip|]; [|done].
  destruct (h !! ip) as [i|]; [|done].
  destruct (h !! e.2) as [p|]; [|done].
  case_decide; [|done]. by rewrite list_lookup_insert_ne.
Qed.

Lemma foldl_param_effect_other sd es l : ∀ h,
  l ∉ es.*2 → foldl (param_effect sd) h es !! l = h !! l.
Proof.
  induction es as [|e es IH]; intros h Hl; [done|].
  simpl in *. apply not_elem_of_cons in Hl as [Hne Hl].
  rewrite IH by done. by apply param_effect_other.
Qed.

Lemma param_effect_self sd h e : param_effect sd h e !! e.2 = loaded sd h e.
Proof.
  unfold param_effect, loaded.
  destruct (getitem sd e.1) as [ip|]; [|done].
  destruct (h !! ip) as [i|] eqn:Hi; [|done].
  destruct (h !! e.2) as [p|] eqn:Hp; [|done].
  case_decide as Hs; [|done].
  rewrite list_lookup_insert_eq by (by eapply lookup_lt_Some).
  rewrite <-Hs. by destruct i.
Qed.

Lemma getitem_elem_of {K A} `{EqDecision K} (d : list (K * A)) k v :
  getitem d k = Some v → v ∈ d.*2.
Proof.
  induction d as [|[k' v'] d IH]; [done|]. simpl.
  case_decide.
  - intros [= ->]. apply list_elem_of_here.
  - intros Hd. apply list_elem_of_further. eauto.
Qed.

Lemma loaded_ext sd h h' e :
  (∀ l, l ∈ sd.*2 → h' !! l = h !! l) → h' !! e.2 = h !! e.2 →
  loaded sd h' e = loaded sd h e.
Proof.
  intros Hsd He. unfold loaded.
  destruct (getitem sd e.1) as [ip|] eqn:Hget; [|done].
  rewrite (Hsd ip) by (by eapply getitem_elem_of). by rewrite He.
Qed.

(** After all the steps: every parameter holds what its own step gave
    it, provided the parameters are distinct tensors and none of them is
    a tensor of the state dict. *)
Lemma foldl_param_effect_self sd es : ∀ h e,
  NoDup es.*2 → (∀ l, l ∈ sd.*2 → l ∉ es.*2) → e ∈ es →
  foldl (param_effect sd) h es !! e.2 = loaded sd h e.
Proof.
  induction es as [|e' es IH]; intros h e Hnd Hdisj He.
  - by apply elem_of_nil in He.
  - simpl in *. apply NoDup_cons in Hnd as [Hnotin Hnd].
    apply elem_of_cons in He as [->|He].
    + rewrite foldl_param_effect_other by done. apply param_effect_self.
    + rewrite IH; [|done| |done].
      * apply loaded_ext.
        -- intros l Hl. apply param_effect_other. intros ->.
           apply (Hdisj _ Hl). apply list_elem_of_here.
        -- apply param_effect_other. intros Heq. apply Hnotin.
           rewrite <-Heq. apply list_elem_of_fmap. by exists e.
      * intros l Hl Hin. apply (Hdisj _ Hl). by apply list_elem_of_further.
Qed.

(** ** The factory *)

Lemma nn_Linear_run i o w :
  ∃ tw tb pos,
    nn_Linear i o w
    = (Ok {| in_features := i; out_features := o;
             weight := length (heap w); bias := S (length (heap w)) |},
       World (heap w ++ [tw; tb]) (fs w) (rng w) pos)
    ∧ t_shape tw = [o; i] ∧ t_shape tb = [o].
Proof.
  eexists _, _, _. split; [|split].
  - unfold nn_Linear, nn_Parameter, draw, alloc, set_heap. rewrite !bind_run. simpl.
    rewrite length_app, <-app_assoc. simpl. rewrite Nat.add_1_r. reflexivity.
  - done.
  - done.
Qed.

Lemma shape_at_app_l h h' l s : shape_at h l = Some s → shape_at (h ++ h') l = Some s.
Proof.
  rewrite !shape_at_Some. intros (t & Ht & Hs). exists t. split; [|done].
  by apply lookup_app_l_Some.
Qed.

Lemma linear_ok_app h h' i o l : linear_ok h i o l → linear_ok (h ++ h') i o l.
Proof. intros (? & ? & ? & ?). repeat split; auto using shape_at_app_l. Qed.

Lemma hidden_ok_app h h' sizes : ∀ prev ls,
  hidden_ok h prev sizes ls → hidden_ok (h ++ h') prev sizes ls.
Proof.
  induction sizes as [|s sizes IH]; intros prev [|l ls]; simpl; try done.
  intros [Hl Hls]. split; [by apply linear_ok_app | by apply IH].
Qed.

Lemma linear_ok_new h i o tw tb :
  t_shape tw = [o; i] → t_shape tb = [o] →
  linear_ok (h ++ [tw; tb]) i o
    {| in_features := i; out_features := o; weight := length h; bias := S (length h) |}.
Proof.
  intros Hw Hb. repeat split; simpl; apply shape_at_Some.
  - exists tw. split; [|done]. by rewrite list_lookup_middle.
  - exists tb. split; [|done].
    change (h ++ [tw; tb]) with (h ++ [tw] ++ [tb]). rewrite app_assoc.
    rewrite list_lookup_middle; [done|]. rewrite length_app. simpl. lia.
Qed.

(** The references of the parameters of a list of layers, in the order
    of the state dict. *)
Definition layer_locs (ls : list Linear) : list loc :=
  concat ((λ l, [weight l; bias l]) <$> ls).

Lemma hidden_run sizes : ∀ prev w,
  ∃ ls new pos,
    fc_model.hidden prev sizes w = (Ok ls, World (heap w ++ new) (fs w) (rng w) pos)
    ∧ hidden_ok (heap w ++ new) prev sizes ls
    ∧ layer_locs ls = seq (length (heap w)) (length new).
Proof.
  induction sizes as [|s sizes IH]; intros prev w.
  - exists [], [], (rng_pos w). simpl. rewrite app_nil_r. by destruct w.
  - destruct (nn_Linear_run prev s w) as (tw & tb & pos & Hrun & Hw & Hb).
    destruct (IH s (World (heap w ++ [tw; tb]) (fs w) (rng w) pos))
      as (ls & new & pos' & Hrun' & Hok & Hlocs).
    simpl in *. eexists (_ :: ls), ([tw; tb] ++ new), pos'.
    rewrite (bind_ok _ _ _ _ _ Hrun), (bind_ok _ _ _ _ _ Hrun').
    rewrite <-app_assoc in *. split; [done|]. split.
    + split; [|done]. rewrite app_assoc. apply linear_ok_app. by apply linear_ok_new.
    + unfold layer_locs in *. simpl. do 2 f_equal.
      etrans; [exact Hlocs|]. rewrite length_app. simpl. f_equal. lia.
Qed.

Lemma well_formed_valid d :
  fc_model.well_formed (input_size d) (output_size d) (hidden_sizes d) = true ↔ valid d.
Proof.
  unfold fc_model.well_formed, valid.
  rewrite !andb_true_iff, !bool_decide_eq_true, forallb_forall, Forall_forall.
  split.
  - intros [[? ?] Hh]. split; [done|]. split; [done|]. intros h Hin.
    eapply bool_decide_eq_true_1, Hh. by apply list_elem_of_In.
  - intros (? & ? & Hh). split; [done|]. intros h Hin.
    apply bool_decide_eq_true_2, Hh. by apply list_elem_of_In.
Qed.

(** The parameters of a network, in the order of the state dict. *)
Definition network_locs (m : fc_model.t) : list loc :=
  layer_locs (fc_model.hidden_layers m ++ [fc_model.output m]).

Lemma Network_run d w :
  valid d →
  ∃ m new pos,
    build d w = (Ok m, World (heap w ++ new) (fs w) (rng w) pos)
    ∧ built_from d (World (heap w ++ new) (fs w) (rng w) pos) m
    ∧ network_locs m = seq (length (heap w)) (length new)
    ∧ fc_model.training m = true.
Proof.
  intros Hd. unfold build, fc_model.Network.
  apply well_formed_valid in Hd as ->.
  destruct (hidden_run (hidden_sizes d) (input_size d) w)
    as (ls & new & pos & Hrun & Hok & Hlocs).
  rewrite (bind_ok _ _ _ _ _ Hrun).
  destruct (nn_Linear_run (List.last (hidden_sizes d) (input_size d)) (output_size d)
              (World (heap w ++ new) (fs w) (rng w) pos))
    as (tw & tb & pos' & Hrun' & Hw & Hb).
  simpl in *. rewrite (bind_ok _ _ _ _ _ Hrun').
  exists {| fc_model.hidden_layers := ls;
            fc_model.output := {| in_features := List.last (hidden_sizes d) (input_size d);
                                  out_features := output_size d;
                                  weight := length (heap w ++ new);
                                  bias := S (length (heap w ++ new)) |};
            fc_model.dropout := (1 # 2)%Q; fc_model.training := true |},
    (new ++ [tw; tb]), pos'.
  rewrite <-app_assoc. split; [done|]. split; [|split; [|done]].
  - split; simpl.
    + rewrite app_assoc. by apply hidden_ok_app.
    + rewrite app_assoc. by apply linear_ok_new.
  - unfold network_locs, layer_locs in *. simpl.
    rewrite fmap_app, concat_app, Hlocs. simpl.
    rewrite !length_app. simpl.
    replace (length new + 2) with (length new + 1 + 1) by lia.
    rewrite !seq_app. simpl. rewrite <-app_assoc. simpl.
    do 3 f_equal. f_equal. lia.
Qed.

(** ** The shapes of a built model are those of its descriptor *)

Lemma elem_of_concat {A} (x : A) (ls : list (list A)) :
  x ∈ concat ls ↔ ∃ l, x ∈ l ∧ l ∈ ls.
Proof.
  rewrite list_elem_of_In, in_concat. split.
  - intros (l & Hl & Hx). exists l. by rewrite !list_elem_of_In.
  - intros (l & Hx & Hl). exists l. by rewrite <-!list_elem_of_In.
Qed.

Lemma shapes_of_Forall2 {K} h (ps : list (K * loc)) r :
  shapes_of h ps = Some r
  ↔ Forall2 (λ e y, y.1 = e.1 ∧ shape_at h e.2 = Some y.2) ps r.
Proof.
  unfold shapes_of. rewrite mapM_Some.
  assert (Hpt : ∀ (e : K * loc) (y : K * list Z),
    (shape_at h e.2 ≫= λ s, Some (e.1, s)) = Some y
    ↔ y.1 = e.1 ∧ shape_at h e.2 = Some y.2).
  { intros e [k s]. simpl. destruct (shape_at h e.2) as [s'|]; simpl.
    - split; [by intros [= <- <-] | by intros [-> [= ->]]].
    - split; [done | by intros [_ ?]]. }
  split; intros HF; (eapply Forall2_impl; [exact HF|]); intros e y; apply Hpt.
Qed.

Lemma shapes_of_app {K} h (ps qs : list (K * loc)) r s :
  shapes_of h ps = Some r → shapes_of h qs = Some s →
  shapes_of h (ps ++ qs) = Some (r ++ s).
Proof. rewrite !shapes_of_Forall2. apply Forall2_app. Qed.

Lemma view_state_shapes h v sv :
  view_shapes h v = Some sv → shapes_of h (view_state v) = Some (view_state sv).
Proof.
  unfold view_shapes. destruct (shapes_of h (mv_params v)) as [ps|] eqn:Hps; [|done].
  intros [= <-]. unfold view_state. simpl.
  apply shapes_of_Forall2. apply shapes_of_Forall2 in Hps.
  apply Forall2_fmap. eapply Forall2_impl; [exact Hps|].
  intros [n l] [n' s] [Hn Hs]. simpl in *. by subst.
Qed.

Lemma views_state_shapes h vs svs :
  Forall2 (λ v sv, view_shapes h v = Some sv) vs svs →
  shapes_of h (concat (view_state <$> vs)) = Some (concat (view_state <$> svs)).
Proof.
  induction 1 as [|v sv vs svs Hv Hvs IH]; [done|].
  rewrite !fmap_cons. simpl. apply shapes_of_app; [|done].
  by apply view_state_shapes.
Qed.

Lemma linear_view_shapes h prefix i o l :
  linear_ok h i o l → view_shapes h (linear_view prefix l) = Some (linear_shapes prefix i o).
Proof.
  intros (_ & _ & Hw & Hb). unfold view_shapes, shapes_of. simpl.
  by rewrite Hw, Hb.
Qed.

Lemma hidden_ok_length h sizes : ∀ prev ls,
  hidden_ok h prev sizes ls → length ls = length sizes.
Proof.
  induction sizes as [|s sizes IH]; intros prev [|l ls]; simpl; try done.
  intros [_ Hls]. f_equal. eauto.
Qed.

Lemma hidden_ok_out h sizes : ∀ prev ls,
  hidden_ok h prev sizes ls → out_features <$> ls = sizes.
Proof.
  induction sizes as [|s sizes IH]; intros prev [|l ls]; simpl; try done.
  intros [(_ & Ho & _) Hls]. f_equal; [done|]. by eapply IH.
Qed.

Lemma hidden_views h sizes : ∀ n prev ls (f : nat → Linear → module_view loc),
  (∀ i l, f i l = linear_view ["hidden_layers"; pretty (n + i)] l) →
  hidden_ok h prev sizes ls →
  Forall2 (λ v sv, view_shapes h v = Some sv) (imap f ls) (hidden_shapes n prev sizes).
Proof.
  induction sizes as [|s sizes IH]; intros n prev [|l ls] f Hf; simpl; try done.
  intros [Hl Hls]. constructor.
  - rewrite Hf, Nat.add_0_r. by apply linear_view_shapes.
  - apply IH; [|done]. intros i l'. simpl. rewrite Hf.
    by replace (n + S i) with (S (n + i)) by lia.
Qed.

Lemma imap_index_length {A B C} (g : nat → C) (l : list A) (k : list B) :
  length l = length k → imap (λ i _, g i) l = imap (λ i _, g i) k.
Proof. intros Hlen. by rewrite !imap_seq_0, Hlen. Qed.

Lemma built_from_views d w m :
  built_from d w m →
  Forall2 (λ v sv, view_shapes (heap w) v = Some sv) (fc_model.modules m) (module_shapes d).
Proof.
  intros [Hh Ho]. unfold fc_model.modules, module_shapes.
  constructor; [done|]. constructor.
  - unfold view_shapes. simpl. do 2 f_equal.
    apply imap_index_length. by eapply hidden_ok_length.
  - apply Forall2_app.
    + by eapply hidden_views.
    + constructor; [by apply linear_view_shapes|]. by constructor.
Qed.

Lemma built_from_shapes d w m :
  built_from d w m → shapes_of (heap w) (state_dict m) = Some (param_shapes d).
Proof. intros Hb. by apply views_state_shapes, built_from_views. Qed.

Lemma built_from_keys d w m :
  built_from d w m → (state_dict m).*1 = (param_shapes d).*1.
Proof. intros Hb. symmetry. eapply shapes_of_fst, built_from_shapes, Hb. Qed.

(** A strict load between two networks. *)
Lemma load_networks_run ds dt w ms mt :
  built_from ds w ms → built_from dt w mt →
  load_state_dict mt (state_dict ms) w
  = (outcome (strict_report (param_shapes ds) (module_shapes dt)),
     set_heap (foldl (param_effect (state_dict ms)) (heap w) (state_dict mt)) w).
Proof.
  intros Hs Ht. apply load_state_dict_run.
  - by apply built_from_shapes.
  - by apply built_from_views.
Qed.

(** ** The report in closed form *)

Definition mismatch (src : list (key * list Z)) (e : key * list Z) : option load_error :=
  match getitem src e.1 with
  | Some s => if decide (s = e.2) then None else Some (SizeMismatch e.1 s e.2)
  | None => None
  end.

Definition lacks (src : list (key * list Z)) (k : key) : Prop := getitem src k = None.

#[global] Instance lacks_dec src k : Decision (lacks src k).
Proof. unfold lacks. apply _. Defined.

Lemma check_param_closed src prefix a np :
  check_param src prefix a np
  = {| missing_keys := missing_keys a ++ filter (lacks src) [prefix ++ [np.1]];
       unexpected_keys := unexpected_keys a;
       error_msgs := error_msgs a ++ omap (mismatch src) [(prefix ++ [np.1], np.2)] |}.
Proof.
  unfold check_param, mismatch, lacks. simpl.
  destruct (getitem src (prefix ++ [np.1])) as [s|] eqn:Hget.
  - rewrite filter_cons_False by (by rewrite Hget). rewrite filter_nil, app_nil_r.
    case_decide; simpl.
    + rewrite app_nil_r. by destruct a.
    + done.
  - rewrite filter_cons_True by done. rewrite filter_nil. simpl.
    by rewrite app_nil_r.
Qed.

Lemma check_params_closed src prefix sps : ∀ a,
  let tgt := (λ '(n, s), (prefix ++ [n], s)) <$> sps in
  foldl (check_param src prefix) a sps
  = {| missing_keys := missing_keys a ++ filter (lacks src) tgt.*1;
       unexpected_keys := unexpected_keys a;
       error_msgs := error_msgs a ++ omap (mismatch src) tgt |}.
Proof.
  induction sps as [|[n s] sps IH]; intros a; simpl.
  - rewrite !app_nil_r. by destruct a.
  - rewrite IH, check_param_closed. simpl.
    rewrite <-!app_assoc. f_equal.
    + f_equal. by rewrite <-filter_app.
    + f_equal. unfold mismatch at 1. simpl.
      destruct (mismatch src (prefix ++ [n], s)) eqn:Hm; unfold mismatch in Hm;
        simpl in Hm; rewrite Hm; done.
Qed.

Lemma check_views_fold src svs : ∀ a,
  let tgt := concat (view_state <$> svs) in
  foldl (check_view src) a svs
  = {| missing_keys := missing_keys a ++ filter (lacks src) tgt.*1;
       unexpected_keys :=
         unexpected_keys a
         ++ concat ((λ v, filter (λ k, is_unexpected v k) src.*1) <$> svs);
       error_msgs := error_msgs a ++ omap (mismatch src) tgt |}.
Proof.
  induction svs as [|v svs IH]; intros a; simpl.
  - rewrite !app_nil_r. by destruct a.
  - rewrite IH. unfold check_view. rewrite check_params_closed. simpl.
    rewrite <-!app_assoc. f_equal.
    + f_equal. by rewrite fmap_app, filter_app.
    + by rewrite omap_app.
Qed.

Lemma check_views_closed src svs :
  let tgt := concat (view_state <$> svs) in
  check_views src svs
  = {| missing_keys := filter (lacks src) tgt.*1;
       unexpected_keys := concat ((λ v, filter (λ k, is_unexpected v k) src.*1) <$> svs);
       error_msgs := omap (mismatch src) tgt |}.
Proof. unfold check_views. by rewrite check_views_fold. Qed.

(** ** The keys of a network *)

Definition layer_keys (i : nat) : list key :=
  [["hidden_layers"; pretty i; "weight"]; ["hidden_layers"; pretty i; "bias"]].

Definition output_keys : list key := [["output"; "weight"]; ["output"; "bias"]].

(** The keys of the state dict of a network with [n] hidden layers. *)
Definition state_keys (n : nat) : list key :=
  concat (layer_keys <$> seq 0 n) ++ output_keys.

Lemma hidden_shapes_keys sizes : ∀ n prev,
  (concat (view_state <$> hidden_shapes n prev sizes)).*1
  = concat (layer_keys <$> seq n (length sizes)).
Proof.
  induction sizes as [|s sizes IH]; intros n prev; [done|].
  simpl. f_equal. f_equal. apply IH.
Qed.

Lemma param_shapes_keys d : (param_shapes d).*1 = state_keys (length (hidden_sizes d)).
Proof.
  unfold param_shapes, module_shapes, state_keys. simpl.
  rewrite fmap_app, concat_app, fmap_app, hidden_shapes_keys. done.
Qed.

Lemma elem_of_layer_keys k i :
  k ∈ layer_keys i ↔ ∃ p, (p = "weight" ∨ p = "bias") ∧ k = ["hidden_layers"; pretty i; p].
Proof.
  unfold layer_keys. rewrite elem_of_cons, list_elem_of_singleton. split.
  - intros [-> | ->]; eauto.
  - intros (p & [-> | ->] & ->); auto.
Qed.

Lemma elem_of_layers k n len :
  k ∈ concat (layer_keys <$> seq n len)
  ↔ ∃ i p, n ≤ i < n + len ∧ (p = "weight" ∨ p = "bias")
           ∧ k = ["hidden_layers"; pretty i; p].
Proof.
  rewrite elem_of_concat. split.
  - intros (l & Hk & Hl). apply list_elem_of_fmap in Hl as (i & -> & Hi).
    apply elem_of_seq in Hi. apply elem_of_layer_keys in Hk as (p & Hp & ->).
    exists i, p. auto.
  - intros (i & p & Hi & Hp & ->). exists (layer_keys i). split.
    + apply elem_of_layer_keys. eauto.
    + apply list_elem_of_fmap. exists i. split; [done|]. by apply elem_of_seq.
Qed.

Lemma elem_of_output_keys k :
  k ∈ output_keys ↔ ∃ p, (p = "weight" ∨ p = "bias") ∧ k = ["output"; p].
Proof.
  unfold output_keys. rewrite elem_of_cons, list_elem_of_singleton. split.
  - intros [-> | ->]; eauto.
  - intros (p & [-> | ->] & ->); auto.
Qed.

Lemma elem_of_state_keys k n :
  k ∈ state_keys n
  ↔ (∃ i p, i < n ∧ (p = "weight" ∨ p = "bias") ∧ k = ["hidden_layers"; pretty i; p])
    ∨ (∃ p, (p = "weight" ∨ p = "bias") ∧ k = ["output"; p]).
Proof.
  unfold state_keys. rewrite elem_of_app, elem_of_layers, elem_of_output_keys.
  split; (intros [(i & p & Hi & H)|H]; [left; exists i, p; split; [lia|done] | by right]).
Qed.

Lemma NoDup_layers len : ∀ n, NoDup (concat (layer_keys <$> seq n len)).
Proof.
  induction len as [|len IH]; intros n; [constructor|].
  replace (concat (layer_keys <$> seq n (S len)))
    with (layer_keys n ++ concat (layer_keys <$> seq (S n) len)) by done.
  apply NoDup_app. split; [|split; [|apply IH]].
  - unfold layer_keys. apply NoDup_cons. split; [|apply NoDup_singleton].
    rewrite list_elem_of_singleton. by intros [= ?].
  - intros k Hk Hin. apply elem_of_layer_keys in Hk as (p & _ & ->).
    apply elem_of_layers in Hin as (i & p' & Hi & _ & [= Heq _]).
    apply (inj pretty) in Heq. lia.
Qed.

Lemma NoDup_state_keys n : NoDup (state_keys n).
Proof.
  unfold state_keys. apply NoDup_app. split; [apply NoDup_layers|]. split.
  - intros k Hk Hin. apply elem_of_layers in Hk as (i & p & _ & _ & ->).
    apply elem_of_output_keys in Hin as (p' & _ & [=]).
  - unfold output_keys. apply NoDup_cons. split; [|apply NoDup_singleton].
    rewrite list_elem_of_singleton. by intros [= ?].
Qed.

(** ** Dictionaries with distinct keys *)

Lemma getitem_None {K A} `{EqDecision K} (d : list (K * A)) k :
  getitem d k = None ↔ k ∉ d.*1.
Proof.
  induction d as [|[k' v] d IH]; simpl.
  - split; [intros _; apply not_elem_of_nil | done].
  - rewrite not_elem_of_cons, <-IH. case_decide as Hk.
    + split; [done | by intros [? _]].
    + split; [by intros ?; split; [congruence|] | by intros [_ ?]].
Qed.

Lemma getitem_Some {K A} `{EqDecision K} (d : list (K * A)) k v :
  NoDup d.*1 → getitem d k = Some v ↔ (k, v) ∈ d.
Proof.
  induction d as [|[k' v'] d IH]; simpl; intros Hnd.
  - split; [done | by intros ?%elem_of_nil].
  - apply NoDup_cons in Hnd as [Hnotin Hnd]. rewrite elem_of_cons.
    case_decide as Hk.
    + subst k'. split; [by intros [= ->]; left|].
      intros [[= ->]|Hin]; [done|]. exfalso. apply Hnotin.
      apply list_elem_of_fmap. by exists (k, v).
    + rewrite IH by done. split; [by right|]. by intros [[= -> ->]|Hin].
Qed.

Lemma getitem_lookup {K A} `{EqDecision K} (d : list (K * A)) j k v :
  NoDup d.*1 → d !! j = Some (k, v) → getitem d k = Some v.
Proof. intros Hnd Hj. apply getitem_Some; [done|]. by eapply list_elem_of_lookup_2. Qed.

(** ** Unexpected keys between two networks *)

Lemma strip_prefix_Some p : ∀ k r, strip_prefix p k = Some r ↔ k = p ++ r.
Proof.
  induction p as [|c p IH]; intros [|c' k] r; simpl.
  - split; [by intros [= <-] | by intros <-].
  - split; [by intros [= <-] | by intros <-].
  - split; [done | done].
  - case_decide as Hc.
    + subst c'. rewrite IH. split; [by intros -> | by intros [= ->]].
    + split; [done | by intros [= ? ?]].
Qed.

Lemma is_unexpected_spec {P} (v : module_view P) k :
  is_unexpected v k
  ↔ ∃ c r, k = mv_prefix v ++ c :: r ∧ (c ∉ mv_modules v) ∧ (c ∉ (mv_params v).*1).
Proof.
  unfold is_unexpected.
  destruct (strip_prefix (mv_prefix v) k) as [[|c r]|] eqn:Hs.
  - apply strip_prefix_Some in Hs as ->. split; [done|].
    intros (c & r & Heq & _). by apply app_inv_head in Heq.
  - apply strip_prefix_Some in Hs as ->.
    rewrite andb_True, !negb_True, !bool_decide_spec. split.
    + intros [? ?]. by exists c, r.
    + intros (c' & r' & Heq & ? & ?). apply app_inv_head in Heq. by simplify_eq.
  - split; [done|]. intros (c & r & -> & _).
    assert (strip_prefix (mv_prefix v) (mv_prefix v ++ c :: r) = Some (c :: r)) as Hs'
      by (by apply strip_prefix_Some).
    by rewrite Hs in Hs'.
Qed.

Lemma elem_of_hidden_shapes v sizes : ∀ n prev,
  v ∈ hidden_shapes n prev sizes →
  ∃ (j : nat) i o, v = linear_shapes ["hidden_layers"; pretty j] i o.
Proof.
  induction sizes as [|s sizes IH]; intros n prev; simpl.
  - by intros ?%elem_of_nil.
  - intros [->|Hv]%elem_of_cons; [by eauto|]. eauto.
Qed.

Lemma network_unexpected dt k ns :
  k ∈ state_keys ns →
  Exists (λ v, is_unexpected v k) (module_shapes dt)
  ↔ k ∉ state_keys (length (hidden_sizes dt)).
Proof.
  intros Hk. rewrite Exists_exists. split.
  - intros (v & Hv & Hu). apply is_unexpected_spec in Hu as (c & r & -> & Hm & Hp).
    unfold module_shapes in Hv.
    rewrite !elem_of_cons, elem_of_app, !elem_of_cons in Hv.
    apply elem_of_state_keys in Hk.
    destruct Hv as [->|[->|[Hv|[->|[->|Hv]]]]]; simpl in *.
    + exfalso. apply Hm. destruct Hk as [(i & p & _ & _ & [= -> ->])|(p & _ & [= -> ->])].
      * apply list_elem_of_here.
      * apply list_elem_of_further, list_elem_of_here.
    + destruct Hk as [(i & p & _ & _ & [= -> ->])|(p & _ & [=])].
      rewrite imap_seq_0 in Hm. intros Hin. apply Hm.
      apply elem_of_state_keys in Hin as [(j & p' & Hj & _ & [= Heq _])|(? & _ & [=])].
      apply list_elem_of_fmap. exists j. split; [done|]. apply elem_of_seq. lia.
    + exfalso. apply elem_of_hidden_shapes in Hv as (j & i & o & ->). simpl in *.
      apply Hp. destruct Hk as [(i' & p & _ & Hp' & [= _ ->])|(p & _ & [=])].
      destruct Hp' as [->| ->].
      * apply list_elem_of_here.
      * apply list_elem_of_further, list_elem_of_here.
    + exfalso. apply Hp. destruct Hk as [(i' & p & _ & _ & [=])|(p & Hp' & [= ->])].
      destruct Hp' as [->| ->].
      * apply list_elem_of_here.
      * apply list_elem_of_further, list_elem_of_here.
    + exfalso. by destruct Hk as [(i' & p & _ & _ & [=])|(p & _ & [=])].
    + by apply elem_of_nil in Hv.
  - intros Hnot. apply elem_of_state_keys in Hk.
    destruct Hk as [(i & p & Hi & Hp & ->)|(p & Hp & ->)].
    + exists {| mv_prefix := ["hidden_layers"]; mv_params := [];
                mv_modules := imap (λ i _, pretty i) (hidden_sizes dt) |}.
      split.
      * unfold module_shapes. apply list_elem_of_further, list_elem_of_here.
      * apply is_unexpected_spec. exists (pretty i), [p]. simpl.
        split; [done|]. split; [|apply not_elem_of_nil].
        rewrite imap_seq_0. intros (j & Heq & Hj)%list_elem_of_fmap.
        apply (inj pretty) in Heq. subst j. apply elem_of_seq in Hj.
        apply Hnot. apply elem_of_state_keys. left. exists i, p.
        split; [lia|done].
    + exfalso. apply Hnot. apply elem_of_state_keys. right. eauto.
Qed.

(** ** Values read out of the store *)

Lemma values_of_cons {K} h (e : K * loc) ps r :
  values_of h (e :: ps) = Some r ↔
  ∃ t r', h !! e.2 = Some t ∧ values_of h ps = Some r' ∧ r = (e.1, t) :: r'.
Proof.
  unfold values_of. simpl.
  destruct (h !! e.2) as [t|]; simpl.
  - destruct (mapM _ ps) as [r'|]; simpl; split.
    + intros [= <-]. eauto.
    + by intros (? & ? & [= <-] & [= <-] & ->).
    + done.
    + by intros (? & ? & ? & ? & ?).
  - split; [done|]. by intros (? & ? & ? & ?).
Qed.

Lemma values_of_fst {K} h (ps : list (K * loc)) r :
  values_of h ps = Some r → r.*1 = ps.*1.
Proof.
  revert r. induction ps as [|e ps IH]; intros r.
  - by intros [= <-].
  - rewrite values_of_cons. intros (t & r' & _ & Hr' & ->). simpl. f_equal. eauto.
Qed.

Lemma values_of_shapes {K} h (ps : list (K * loc)) r :
  values_of h ps = Some r → shapes_of h ps = Some ((λ e, (e.1, t_shape e.2)) <$> r).
Proof.
  revert r. induction ps as [|e ps IH]; intros r.
  - by intros [= <-].
  - rewrite values_of_cons. intros (t & r' & Ht & Hr' & ->).
    apply shapes_of_cons. exists (t_shape t), ((λ e, (e.1, t_shape e.2)) <$> r').
    split; [|split; [by apply IH|done]]. unfold shape_at. by rewrite Ht.
Qed.

Lemma shapes_of_values {K} h (ps : list (K * loc)) s :
  shapes_of h ps = Some s → ∃ r, values_of h ps = Some r.
Proof.
  revert s. induction ps as [|e ps IH]; intros s.
  - by exists [].
  - rewrite shapes_of_cons. intros (s' & r' & Hs & Hr' & ->).
    apply shape_at_Some in Hs as (t & Ht & _). destruct (IH _ Hr') as [r Hr].
    exists ((e.1, t) :: r). apply values_of_cons. eauto.
Qed.

Lemma getitem_values_of h (sd : list (key * loc)) store k :
  values_of h sd = Some store → getitem store k = getitem sd k ≫= (h !!.).
Proof.
  revert store. induction sd as [|[k' l] sd IH]; intros store.
  - by intros [= <-].
  - rewrite values_of_cons. intros (t & r' & Ht & Hr' & ->). simpl in *.
    case_decide; [done|]. eauto.
Qed.

Lemma values_of_Forall2 {K} h (ps : list (K * loc)) r :
  values_of h ps = Some r
  ↔ Forall2 (λ e y, y.1 = e.1 ∧ h !! e.2 = Some y.2) ps r.
Proof.
  unfold values_of. rewrite mapM_Some.
  assert (Hpt : ∀ (e : K * loc) (y : K * tensor),
    (h !! e.2 ≫= λ t, Some (e.1, t)) = Some y ↔ y.1 = e.1 ∧ h !! e.2 = Some y.2).
  { intros e [k t]. simpl. destruct (h !! e.2) as [t'|]; simpl.
    - split; [by intros [= <- <-] | by intros [-> [= ->]]].
    - split; [done | by intros [_ ?]]. }
  split; intros HF; (eapply Forall2_impl; [exact HF|]); intros e y; apply Hpt.
Qed.

Lemma values_of_ext {K} h h' (ps : list (K * loc)) :
  (∀ l, l ∈ ps.*2 → h' !! l = h !! l) → values_of h' ps = values_of h ps.
Proof.
  intros Heq. unfold values_of. induction ps as [|e ps IH]; [done|].
  simpl. rewrite Heq by apply list_elem_of_here. rewrite IH; [done|].
  intros l Hl. apply Heq. by apply list_elem_of_further.
Qed.

Lemma values_of_app_l {K} h h' (ps : list (K * loc)) r :
  values_of h ps = Some r → values_of (h ++ h') ps = Some r.
Proof.
  rewrite !values_of_Forall2. intros HF. eapply Forall2_impl; [exact HF|].
  intros e y [? ?]. split; [done|]. by apply lookup_app_l_Some.
Qed.

(** A load of a state dict with the keys and the shapes of the
    parameters, in the same order, writes every parameter. *)
Lemma load_all h (sd tgt : list (key * loc)) store :
  values_of h sd = Some store → NoDup store.*1 →
  shapes_of h tgt = Some ((λ e, (e.1, t_shape e.2)) <$> store) →
  NoDup tgt.*2 → (∀ l, l ∈ sd.*2 → l ∉ tgt.*2) →
  values_of (foldl (param_effect sd) h tgt) tgt = Some store.
Proof.
  intros Hsd Hnd Htgt Hndt Hdisj.
  apply values_of_Forall2. apply shapes_of_Forall2 in Htgt.
  apply Forall2_fmap_r in Htgt.
  apply Forall2_same_length_lookup. split; [by eapply Forall2_length|].
  intros j [k l] [k' t] He Hy.
  destruct (Forall2_lookup_lr _ _ _ _ _ _ Htgt He Hy) as [Hk Hs]. simpl in *.
  subst k'. split; [done|].
  assert (Hl := foldl_param_effect_self sd tgt h (k, l) Hndt Hdisj
                  (list_elem_of_lookup_2 _ _ _ He)).
  simpl in Hl. rewrite Hl. unfold loaded. simpl.
  assert (Hget : getitem store k = Some t) by (by eapply getitem_lookup).
  rewrite (getitem_values_of _ _ _ k Hsd) in Hget.
  destruct (getitem sd k) as [ip|]; [|done]. simpl in Hget. rewrite Hget.
  apply shape_at_Some in Hs as (p & -> & Hp). by rewrite decide_True.
Qed.

(** ** [torch.save] and [torch.load] run *)

Lemma forM_cons_ok {A B} (f : A → M B) x l w y w' ys w'' :
  f x w = (Ok y, w') → forM f l w' = (Ok ys, w'') →
  forM f (x :: l) w = (Ok (y :: ys), w'').
Proof.
  intros Hx Hl. simpl. rewrite (bind_ok _ _ _ _ _ Hx).
  by rewrite (bind_ok _ _ _ _ _ Hl).
Qed.

Lemma pickle_entries_run sd : ∀ store w,
  values_of (heap w) sd = Some store →
  forM torch.pickle_entry sd w = (Ok store, w).
Proof.
  induction sd as [|e sd IH]; intros store w.
  - by intros [= <-].
  - rewrite values_of_cons. intros (t & r' & Ht & Hr' & ->). simpl.
    assert (He : torch.pickle_entry e w = (Ok (e.1, t), w)).
    { unfold torch.pickle_entry. by rewrite (bind_ok _ _ _ _ _ (read_ok _ _ _ Ht)). }
    rewrite (bind_ok _ _ _ _ _ He). by rewrite (bind_ok _ _ _ _ _ (IH _ _ Hr')).
Qed.

(** A pickled dictionary with the four entries of a checkpoint, and the
    dictionary that [torch.load] makes of it; the one of cell 11 has the
    sizes 784 and 10. *)
Definition pickled_record (i o : Z) (hs : list Z) (store : list (key * tensor)) : pickled :=
  PkDict [ ("input_size", PkInt i); ("output_size", PkInt o);
           ("hidden_layers", PkIntList hs); ("state_dict", PkStateDict store) ].

Definition loaded_record (i o : Z) (hs : list Z) (sd : list (key * loc)) : pyobj :=
  PyDict [ ("input_size", PyInt i); ("output_size", PyInt o);
           ("hidden_layers", PyIntList hs); ("state_dict", PyStateDict sd) ].

Definition pickled_checkpoint (hs : list Z) (store : list (key * tensor)) : pickled :=
  pickled_record 784 10 hs store.

Lemma save_checkpoint_run m w store :
  param_store w m = Some store →
  save_checkpoint m w
  = (Ok (), set_fs (<["checkpoint.pth" :=
                       Pickle (pickled_checkpoint
                                 (out_features <$> fc_model.hidden_layers m) store)]>
                      (fs w)) w).
Proof.
  intros Hs. unfold save_checkpoint, torch.save.
  assert (Hp : torch.pickle (PyDict (checkpoint m)) w
               = (Ok (pickled_checkpoint (out_features <$> fc_model.hidden_layers m) store), w)).
  { unfold torch.pickle, checkpoint.
    assert (Hsd : torch.pickle_item ("state_dict", PyStateDict (state_dict m)) w
                  = (Ok ("state_dict", PkStateDict store), w)).
    { unfold torch.pickle_item. simpl.
      by rewrite (bind_ok _ _ _ _ _ (bind_ok _ _ _ _ _ (pickle_entries_run _ _ _ Hs))). }
    erewrite bind_ok; [done|].
    repeat (eapply forM_cons_ok; [done || exact Hsd|]). done. }
  by rewrite (bind_ok _ _ _ _ _ Hp).
Qed.

Lemma unpickle_entries_run ts : ∀ w,
  forM torch.unpickle_entry ts w
  = (Ok (zip ts.*1 (seq (length (heap w)) (length ts))),
     set_heap (heap w ++ ts.*2) w).
Proof.
  induction ts as [|[k t] ts IH]; intros w.
  - simpl. by rewrite app_nil_r, set_heap_id.
  - erewrite forM_cons_ok; [| reflexivity | apply IH]. simpl.
    rewrite length_app, Nat.add_1_r, <-app_assoc. done.
Qed.

Lemma values_of_unpickled h (ts : list (key * tensor)) :
  values_of (h ++ ts.*2) (zip ts.*1 (seq (length h) (length ts))) = Some ts.
Proof.
  apply values_of_Forall2. apply Forall2_same_length_lookup. split.
  - rewrite length_zip_with, length_fmap, length_seq. lia.
  - intros j [k l] [k' t] He Hy.
    apply lookup_zip_with_Some in He as (k0 & l0 & [= <- <-] & Hk & Hl).
    rewrite list_lookup_fmap, Hy in Hk. injection Hk as <-.
    apply lookup_seq in Hl as [-> Hj]. simpl. split; [done|].
    rewrite lookup_app_r by lia. rewrite list_lookup_fmap.
    replace (length h + j - length h) with j by lia. by rewrite Hy.
Qed.

Lemma unpickled_locs (ts : list (key * tensor)) n :
  (zip ts.*1 (seq n (length ts))).*2 = seq n (length ts).
Proof. apply snd_zip. by rewrite length_fmap, length_seq. Qed.

Lemma linear_views_locs ls : ∀ pf : nat → key,
  (concat (view_state <$> imap (λ i l, linear_view (pf i) l) ls)).*2 = layer_locs ls.
Proof.
  induction ls as [|l ls IH]; intros pf; [done|].
  rewrite imap_cons, fmap_cons. unfold layer_locs. rewrite fmap_cons. simpl.
  do 2 f_equal. apply (IH (pf ∘ S)).
Qed.

Lemma state_dict_locs m : (state_dict m).*2 = network_locs m.
Proof.
  unfold state_dict, network_locs. simpl.
  rewrite fmap_app, concat_app, fmap_app.
  rewrite (linear_views_locs _ (λ i, ["hidden_layers"; pretty i])).
  unfold layer_locs. by rewrite fmap_app, concat_app.
Qed.

(** ** What the report contains *)

Lemma nil_no_elem {A} (l : list A) : (∀ x, x ∉ l) → l = [].
Proof. destruct l as [|x l]; [done|]. intros H. by destruct (H x); left. Qed.

Lemma elem_of_missing src svs k :
  k ∈ missing_keys (check_views src svs)
  ↔ k ∈ (concat (view_state <$> svs)).*1 ∧ k ∉ src.*1.
Proof.
  rewrite check_views_closed. cbn [missing_keys]. rewrite list_elem_of_filter.
  unfold lacks. rewrite getitem_None. tauto.
Qed.

Lemma elem_of_errors src svs e :
  e ∈ error_msgs (check_views src svs)
  ↔ ∃ k s s', e = SizeMismatch k s s' ∧ (k, s') ∈ concat (view_state <$> svs)
              ∧ getitem src k = Some s ∧ s ≠ s'.
Proof.
  rewrite check_views_closed. cbn [error_msgs]. rewrite list_elem_of_omap. split.
  - intros ([k s'] & Hin & Hm). unfold mismatch in Hm. simpl in Hm.
    destruct (getitem src k) as [s|] eqn:Hget; [|done].
    case_decide; [done|]. injection Hm as <-. by exists k, s, s'.
  - intros (k & s & s' & -> & Hin & Hget & Hne). exists (k, s'). split; [done|].
    unfold mismatch. simpl. rewrite Hget. by rewrite decide_False.
Qed.

Lemma elem_of_unexpected ds dt k :
  k ∈ unexpected_keys (check_views (param_shapes ds) (module_shapes dt))
  ↔ k ∈ (param_shapes ds).*1 ∧ k ∉ (param_shapes dt).*1.
Proof.
  rewrite check_views_closed. cbn [unexpected_keys]. rewrite elem_of_concat.
  rewrite (param_shapes_keys dt). split.
  - intros (l & Hk & Hl). apply list_elem_of_fmap in Hl as (v & -> & Hv).
    apply list_elem_of_filter in Hk as [Hu Hk]. split; [done|].
    rewrite param_shapes_keys in Hk.
    apply (network_unexpected dt k _ Hk). apply Exists_exists. eauto.
  - intros [Hk Hnot]. assert (Hk' := Hk). rewrite param_shapes_keys in Hk'.
    apply (network_unexpected dt k _ Hk') in Hnot.
    apply Exists_exists in Hnot as (v & Hv & Hu).
    exists (filter (λ k, is_unexpected v k) (param_shapes ds).*1). split.
    + by apply list_elem_of_filter.
    + apply list_elem_of_fmap. by exists v.
Qed.

Lemma NoDup_param_shapes d : NoDup (param_shapes d).*1.
Proof. rewrite param_shapes_keys. apply NoDup_state_keys. Qed.

Lemma strict_report_same d : strict_report (param_shapes d) (module_shapes d) = [].
Proof.
  unfold strict_report, report.
  rewrite (nil_no_elem (missing_keys _)), (nil_no_elem (unexpected_keys _)),
    (nil_no_elem (error_msgs _)).
  - done.
  - intros e (k & s & s' & -> & Hin & Hget & Hne)%elem_of_errors.
    apply getitem_Some in Hget; [|apply NoDup_param_shapes].
    apply Hne. apply (getitem_Some _ _ _ (NoDup_param_shapes d)) in Hget.
    apply (getitem_Some _ _ _ (NoDup_param_shapes d)) in Hin. congruence.
  - intros k [Hk Hnot]%elem_of_unexpected. done.
  - intros k [Hk Hnot]%elem_of_missing. done.
Qed.

(** ** [load_checkpoint] on a record *)

Lemma load_record_run path w i o hs store :
  fs w !! path = Some (Pickle (pickled_record i o hs store)) →
  torch.load path w
  = (Ok (loaded_record i o hs (zip store.*1 (seq (length (heap w)) (length store)))),
     set_heap (heap w ++ store.*2) w).
Proof.
  intros Hf. unfold torch.load.
  assert (Hr : read_file path w = (Ok (Some (Pickle (pickled_record i o hs store))), w))
    by (unfold read_file; by rewrite Hf).
  rewrite (bind_ok _ _ _ _ _ Hr). unfold torch.unpickle, pickled_record, loaded_record.
  assert (Hsd : torch.unpickle_item ("state_dict", PkStateDict store) w
                = (Ok ("state_dict",
                       PyStateDict (zip store.*1 (seq (length (heap w)) (length store)))),
                   set_heap (heap w ++ store.*2) w)).
  { unfold torch.unpickle_item. simpl.
    by rewrite (bind_ok _ _ _ _ _ (bind_ok _ _ _ _ _ (unpickle_entries_run _ _))). }
  erewrite bind_ok; [done|].
  repeat (eapply forM_cons_ok; [done || exact Hsd|]). done.
Qed.

Lemma load_checkpoint_record path w w1 i o hs sd :
  torch.load path w = (Ok (loaded_record i o hs sd), w1) →
  load_checkpoint path w
  = (model ← fc_model.Network i o hs; _ ← load_state_dict model sd; mret model) w1.
Proof. intros Hl. unfold load_checkpoint. by rewrite (bind_ok _ _ _ _ _ Hl). Qed.

(** ** The round trip *)

Lemma built_from_store d w m :
  built_from d w m →
  ∃ store, param_store w m = Some store
           ∧ (λ e, (e.1, t_shape e.2)) <$> store = param_shapes d.
Proof.
  intros Hb. assert (Hs := built_from_shapes _ _ _ Hb).
  destruct (shapes_of_values _ _ _ Hs) as [store Hv]. exists store. split; [done|].
  apply values_of_shapes in Hv. congruence.
Qed.

Lemma built_from_app d w m new pos :
  built_from d w m → built_from d (World (heap w ++ new) (fs w) (rng w) pos) m.
Proof.
  intros [Hh Ho]. split; simpl; [by apply hidden_ok_app | by apply linear_ok_app].
Qed.

Lemma round_trip_784_10 d w m :
  valid d → input_size d = 784%Z → output_size d = 10%Z → built_from d w m →
  ∃ m' w' store,
    load_checkpoint "checkpoint.pth" (save_checkpoint m w).2 = (Ok m', w')
    ∧ param_store w m = Some store
    ∧ param_store w' m' = Some store
    ∧ fc_model.training m' = true.
Proof.
  intros Hvalid Hi Ho Hb.
  destruct (built_from_store _ _ _ Hb) as (store & Hstore & Hshapes).
  rewrite (save_checkpoint_run _ _ _ Hstore). cbn [snd].
  set (w1 := set_fs _ w).
  assert (Hhs : out_features <$> fc_model.hidden_layers m = hidden_sizes d)
    by (destruct Hb as [Hh _]; by eapply hidden_ok_out).
  assert (Hload := load_record_run "checkpoint.pth" w1 784 10
                     (out_features <$> fc_model.hidden_layers m) store).
  rewrite (load_checkpoint_record _ _ _ _ _ _ _ (Hload (lookup_insert_eq _ _ _))).
  clear Hload. set (sd := zip store.*1 _). set (w2 := set_heap _ w1).
  rewrite Hhs, <-Hi, <-Ho.
  destruct (Network_run d w2 Hvalid) as (m' & new & pos & Hrun & Hb' & Hlocs & Htr).
  unfold build in Hrun. rewrite (bind_ok _ _ _ _ _ Hrun).
  set (w3 := World _ _ _ _) in *.
  assert (Hsd : values_of (heap w3) sd = Some store).
  { apply values_of_app_l. apply values_of_unpickled. }
  assert (Hkeys : NoDup store.*1).
  { replace store.*1 with (param_shapes d).*1; [apply NoDup_param_shapes|].
    rewrite <-Hshapes, <-list_fmap_compose. done. }
  assert (Hsrc : shapes_of (heap w3) sd = Some (param_shapes d)).
  { rewrite <-Hshapes. by apply values_of_shapes. }
  assert (Hld := load_state_dict_run (H := Network_Module) m' sd _ _ w3 Hsrc
                   (built_from_views _ _ _ Hb')).
  rewrite strict_report_same in Hld. unfold outcome in Hld. simpl in Hld.
  rewrite (bind_ok _ _ _ _ _ Hld). simpl.
  eexists _, _, store. split; [done|]. split; [done|]. split; [|done].
  unfold param_store. simpl. apply load_all.
  - exact Hsd.
  - done.
  - rewrite Hshapes. exact (built_from_shapes d w3 m' Hb').
  - rewrite state_dict_locs, Hlocs. apply NoDup_seq.
  - intros l Hl. rewrite state_dict_locs, Hlocs.
    unfold sd in Hl. rewrite unpickled_locs in Hl.
    apply elem_of_seq in Hl. rewrite elem_of_seq.
    unfold w2, w1 in *. simpl in *. rewrite length_app, length_fmap. lia.
Qed.

Definition scenario_A : descriptor :=
  {| input_size := 784; output_size := 10; hidden_sizes := [512; 256; 128]%Z |}.
Definition scenario_B : descriptor :=
  {| input_size := 784; output_size := 10; hidden_sizes := [400; 200; 100]%Z |}.

(** What a report says about a key. *)
Definition reports_missing (msgs : list load_error) (k : key) : Prop :=
  ∃ ks, MissingKeys ks ∈ msgs ∧ k ∈ ks.

Definition reports_unexpected (msgs : list load_error) (k : key) : Prop :=
  ∃ ks, UnexpectedKeys ks ∈ msgs ∧ k ∈ ks.

(** The report of cell 10, as the notebook prints it. *)
Definition cell_10_report : list load_error :=
  [ SizeMismatch ["hidden_layers"; "0"; "weight"] [512; 784]%Z [400; 784]%Z;
    SizeMismatch ["hidden_layers"; "0"; "bias"] [512]%Z [400]%Z;
    SizeMismatch ["hidden_layers"; "1"; "weight"] [256; 512]%Z [200; 400]%Z;
    SizeMismatch ["hidden_layers"; "1"; "bias"] [256]%Z [200]%Z;
    SizeMismatch ["hidden_layers"; "2"; "weight"] [128; 256]%Z [100; 200]%Z;
    SizeMismatch ["hidden_layers"; "2"; "bias"] [128]%Z [100]%Z;
    SizeMismatch ["output"; "weight"] [10; 128]%Z [10; 100]%Z ].

(** * The claims *)

Lemma elem_of_report src svs e :
  e ∈ strict_report src svs
  ↔ (e = MissingKeys (missing_keys (check_views src svs))
     ∧ missing_keys (check_views src svs) ≠ [])
    ∨ (e = UnexpectedKeys (unexpected_keys (check_views src svs))
       ∧ unexpected_keys (check_views src svs) ≠ [])
    ∨ e ∈ error_msgs (check_views src svs).
Proof.
  unfold strict_report, report. rewrite !elem_of_app.
  repeat case_decide; rewrite ?elem_of_nil, ?list_elem_of_singleton; tauto.
Qed.

Lemma reports_missing_spec src svs k :
  reports_missing (strict_report src svs) k ↔ k ∈ missing_keys (check_views src svs).
Proof.
  unfold reports_missing. split.
  - intros (ks & Hin & Hk). apply elem_of_report in Hin as [[[= ->] _]|[[[=] _]|Hin]]; [done|].
    by apply elem_of_errors in Hin as (? & ? & ? & [=] & _).
  - intros Hk. exists (missing_keys (check_views src svs)). split; [|done].
    apply elem_of_report. left. split; [done|].
    intros Heq. rewrite Heq in Hk. by apply elem_of_nil in Hk.
Qed.

Lemma reports_unexpected_spec src svs k :
  reports_unexpected (strict_report src svs) k
  ↔ k ∈ unexpected_keys (check_views src svs).
Proof.
  unfold reports_unexpected. split.
  - intros (ks & Hin & Hk). apply elem_of_report in Hin as [[[=] _]|[[[= ->] _]|Hin]]; [done|].
    by apply elem_of_errors in Hin as (? & ? & ? & [=] & _).
  - intros Hk. exists (unexpected_keys (check_views src svs)). split; [|done].
    apply elem_of_report. right. left. split; [done|].
    intros Heq. rewrite Heq in Hk. by apply elem_of_nil in Hk.
Qed.

Lemma size_mismatch_spec ds dt k s s' :
  SizeMismatch k s s' ∈ strict_report (param_shapes ds) (module_shapes dt)
  ↔ (k, s) ∈ param_shapes ds ∧ (k, s') ∈ param_shapes dt ∧ s ≠ s'.
Proof.
  rewrite elem_of_report, elem_of_errors. split.
  - intros [[[=] _]|[[[=] _]|(k0 & s0 & s0' & [= -> -> ->] & Hin & Hget & Hne)]].
    apply getitem_Some in Hget; [|apply NoDup_param_shapes]. done.
  - intros (Hs & Ht & Hne). right. right. exists k, s, s'.
    split; [done|]. split; [done|]. split; [|done].
    apply getitem_Some; [apply NoDup_param_shapes|done].
Qed.

(** C2.  A strict load of the state dict of one network into another
    collects every incompatibility in one report and raises it once
    (or returns, when the report is empty): the report names a key as
    missing exactly when the target has it and the state dict lacks it,
    as unexpected exactly when the state dict has it and the target
    lacks it, and has a size-mismatch line with both shapes exactly for
    the keys of both sides whose shapes differ.  For the networks of
    cell 10, hidden sizes [512, 256, 128] loaded into [400, 200, 100],
    the load raises the seven lines that the notebook prints: the three
    hidden weight and bias pairs and the output weight. *)
Theorem strict_load_reports_every_incompatibility :
  (∀ ds dt w ms mt,
     built_from ds w ms → built_from dt w mt →
     ∃ msgs,
       (load_state_dict mt (state_dict ms) w).1 = outcome msgs
       ∧ (∀ k, reports_missing msgs k
               ↔ k ∈ (state_dict mt).*1 ∧ k ∉ (state_dict ms).*1)
       ∧ (∀ k, reports_unexpected msgs k
               ↔ k ∈ (state_dict ms).*1 ∧ k ∉ (state_dict mt).*1)
       ∧ (∀ k s s', SizeMismatch k s s' ∈ msgs
               ↔ (k, s) ∈ param_shapes ds ∧ (k, s') ∈ param_shapes dt ∧ s ≠ s'))
  ∧ (∀ w ms mt,
       built_from scenario_A w ms → built_from scenario_B w mt →
       (load_state_dict mt (state_dict ms) w).1 = Raise (RuntimeError cell_10_report)).
Proof.
  split.
  - intros ds dt w ms mt Hs Ht.
    exists (strict_report (param_shapes ds) (module_shapes dt)).
    rewrite (load_networks_run _ _ _ _ _ Hs Ht).
    rewrite (built_from_keys _ _ _ Hs), (built_from_keys _ _ _ Ht).
    split; [done|]. split; [|split].
    + intros k. rewrite reports_missing_spec. apply elem_of_missing.
    + intros k. rewrite reports_unexpected_spec. apply elem_of_unexpected.
    + intros k s s'. apply size_mismatch_spec.
  - intros w ms mt Hs Ht. by rewrite (load_networks_run _ _ _ _ _ Hs Ht).
Qed.

(** C3 (amended).  A strict load writes as it goes and raises at the
    end: whether it returns or raises, a parameter of the target whose
    key the state dict has with the same shape holds the tensor of the
    state dict, and every other parameter, every other tensor and every
    file is as before. *)
Theorem strict_load_overwrites_the_matching_parameters :
  ∀ ds dt w ms mt,
    built_from ds w ms → built_from dt w mt →
    NoDup (state_dict mt).*2 →
    (∀ l, l ∈ (state_dict ms).*2 → l ∉ (state_dict mt).*2) →
    let w' := (load_state_dict mt (state_dict ms) w).2 in
    (∀ k l s', (k, l) ∈ state_dict mt → shape_at (heap w) l = Some s' →
       ((k, s') ∈ param_shapes ds →
          ∃ l0, (k, l0) ∈ state_dict ms ∧ heap w' !! l = heap w !! l0)
       ∧ ((k, s') ∉ param_shapes ds → heap w' !! l = heap w !! l))
    ∧ (∀ l, l ∉ (state_dict mt).*2 → heap w' !! l = heap w !! l)
    ∧ fs w' = fs w.
Proof.
  intros ds dt w ms mt Hs Ht Hnd Hdisj w'. unfold w'.
  rewrite (load_networks_run _ _ _ _ _ Hs Ht). cbn [snd set_heap heap fs].
  split; [|split; [|done]].
  - intros k l s' Hin Hl.
    assert (Hself := foldl_param_effect_self (state_dict ms) (state_dict mt)
                       (heap w) (k, l) Hnd Hdisj Hin).
    cbn [snd] in Hself. rewrite Hself. unfold loaded. cbn [fst snd].
    assert (Hsrc := built_from_shapes _ _ _ Hs).
    assert (Hget := getitem_shapes_of _ _ _ k Hsrc).
    assert (Hkeys : NoDup (state_dict ms).*1)
      by (rewrite (built_from_keys _ _ _ Hs); apply NoDup_param_shapes).
    apply shape_at_Some in Hl as (p & Hp & <-). rewrite Hp.
    split.
    + intros Hks. apply getitem_Some in Hks; [|apply NoDup_param_shapes].
      rewrite Hks in Hget. destruct (getitem (state_dict ms) k) as [l0|] eqn:Hl0; [|done].
      simpl in Hget. symmetry in Hget. apply shape_at_Some in Hget as (i & Hi & Heq).
      exists l0. split; [by apply getitem_Some|]. rewrite Hi. by rewrite decide_True.
    + intros Hks. destruct (getitem (state_dict ms) k) as [l0|] eqn:Hl0; [|done].
      simpl in Hget. destruct (heap w !! l0) as [i|] eqn:Hi; [|done].
      rewrite decide_False; [done|]. intros Heq. apply Hks.
      apply getitem_Some; [apply NoDup_param_shapes|].
      rewrite Hget. unfold shape_at. rewrite Hi. simpl. by rewrite Heq.
  - intros l Hl. by apply foldl_param_effect_other.
Qed.

(** ** Concrete runs *)

Definition stream : nat → Z := Z.of_nat.

Definition small_src : descriptor :=
  {| input_size := 2; output_size := 1; hidden_sizes := [2%Z] |}.
Definition small_tgt : descriptor :=
  {| input_size := 2; output_size := 1; hidden_sizes := [3%Z] |}.

(** Two networks built one after the other in the empty world, and what
    this gives. *)
Definition two_models : M (fc_model.t * fc_model.t) :=
  ms ← build small_src; mt ← build small_tgt; mret (ms, mt).

Definition two_ms : fc_model.t :=
  {| fc_model.hidden_layers :=
       [{| in_features := 2; out_features := 2; weight := 0; bias := 1 |}];
     fc_model.output := {| in_features := 2; out_features := 1; weight := 2; bias := 3 |};
     fc_model.dropout := (1 # 2)%Q; fc_model.training := true |}.

Definition two_mt : fc_model.t :=
  {| fc_model.hidden_layers :=
       [{| in_features := 2; out_features := 3; weight := 4; bias := 5 |}];
     fc_model.output := {| in_features := 3; out_features := 1; weight := 6; bias := 7 |};
     fc_model.dropout := (1 # 2)%Q; fc_model.training := true |}.

Definition two_world : world :=
  World [ Tensor [2; 2]%Z [0; 1; 2; 3]%Z; Tensor [2]%Z [4; 5]%Z;
          Tensor [1; 2]%Z [6; 7]%Z; Tensor [1]%Z [8]%Z;
          Tensor [3; 2]%Z [9; 10; 11; 12; 13; 14]%Z; Tensor [3]%Z [15; 16; 17]%Z;
          Tensor [1; 3]%Z [18; 19; 20]%Z; Tensor [1]%Z [21]%Z ]
        ∅ stream 22.

(** [torch.zeros(shape)], and a network of a given descriptor whose
    parameters are the tensors [l], [l + 1], ... of the store. *)
Definition zeros (s : list Z) : tensor := Tensor s (repeat 0%Z (Z.to_nat (numel s))).

Fixpoint layers_at (l : loc) (prev : Z) (sizes : list Z) : list Linear :=
  match sizes with
  | [] => []
  | h :: sizes' =>
      {| in_features := prev; out_features := h; weight := l; bias := S l |}
      :: layers_at (S (S l)) h sizes'
  end.

Definition network_at (l : loc) (d : descriptor) : fc_model.t :=
  {| fc_model.hidden_layers := layers_at l (input_size d) (hidden_sizes d);
     fc_model.output :=
       {| in_features := List.last (hidden_sizes d) (input_size d);
          out_features := output_size d;
          weight := l + 2 * length (hidden_sizes d);
          bias := S (l + 2 * length (hidden_sizes d)) |};
     fc_model.dropout := (1 # 2)%Q; fc_model.training := true |}.

Definition zero_store (d : descriptor) : list tensor := zeros <$> (param_shapes d).*2.

Lemma two_models_run : two_models (fresh_world stream) = (Ok (two_ms, two_mt), two_world).
Proof. vm_compute. reflexivity. Qed.

Lemma two_models_built :
  built_from small_src two_world two_ms ∧ built_from small_tgt two_world two_mt.
Proof. vm_compute. tauto. Qed.

(** C3, the claim as stated fails: the second network of [two_models]
    is loaded with the state dict of the first; the load raises, and
    [output.bias], whose shape is [[1]] on both sides, has been
    overwritten. *)
Lemma failed_load_has_overwritten_output_bias :
  let r := load_state_dict two_mt (state_dict two_ms) two_world in
  r.1 = Raise (RuntimeError
                 [ SizeMismatch ["hidden_layers"; "0"; "weight"] [2; 2]%Z [3; 2]%Z;
                   SizeMismatch ["hidden_layers"; "0"; "bias"] [2]%Z [3]%Z;
                   SizeMismatch ["output"; "weight"] [1; 2]%Z [1; 3]%Z ])
  ∧ heap two_world !! 7 = Some (Tensor [1]%Z [21]%Z)
  ∧ heap r.2 !! 7 = Some (Tensor [1]%Z [8]%Z)
  ∧ param_store r.2 two_mt ≠ param_store two_world two_mt.
Proof. vm_compute. repeat split; congruence. Qed.

Lemma strict_load_overwrites_the_matching_parameters_witness :
  built_from small_src two_world two_ms
  ∧ built_from small_tgt two_world two_mt
  ∧ NoDup (state_dict two_mt).*2
  ∧ (∀ l, l ∈ (state_dict two_ms).*2 → l ∉ (state_dict two_mt).*2)
  ∧ (let w' := (load_state_dict two_mt (state_dict two_ms) two_world).2 in
     (∀ k l s', (k, l) ∈ state_dict two_mt → shape_at (heap two_world) l = Some s' →
        ((k, s') ∈ param_shapes small_src →
           ∃ l0, (k, l0) ∈ state_dict two_ms ∧ heap w' !! l = heap two_world !! l0)
        ∧ ((k, s') ∉ param_shapes small_src → heap w' !! l = heap two_world !! l))
     ∧ (∀ l, l ∉ (state_dict two_mt).*2 → heap w' !! l = heap two_world !! l)
     ∧ fs w' = fs two_world).
Proof.
  assert (Hb : built_from small_src two_world two_ms
               ∧ built_from small_tgt two_world two_mt) by (vm_compute; tauto).
  assert (Hnd : NoDup (state_dict two_mt).*2)
    by (apply (bool_decide_unpack _); vm_compute; exact I).
  assert (Hdisj : ∀ l, l ∈ (state_dict two_ms).*2 → l ∉ (state_dict two_mt).*2).
  { apply Forall_forall. apply (bool_decide_unpack _). vm_compute. exact I. }
  destruct Hb as [Hs Ht]. repeat (split; [assumption|]).
  exact (strict_load_overwrites_the_matching_parameters
           small_src small_tgt two_world two_ms two_mt Hs Ht Hnd Hdisj).
Defined.

(** The networks of cells 4 and 10 side by side in one store, with
    zero parameters. *)
Definition cell_10_world : world :=
  World (zero_store scenario_A ++ zero_store scenario_B) ∅ stream 0.

Lemma cell_10_built :
  built_from scenario_A cell_10_world (network_at 0 scenario_A)
  ∧ built_from scenario_B cell_10_world (network_at 8 scenario_B).
Proof. repeat split; reflexivity. Qed.

Lemma strict_load_reports_every_incompatibility_witness :
  built_from small_src two_world two_ms
  ∧ built_from small_tgt two_world two_mt
  ∧ built_from scenario_A cell_10_world (network_at 0 scenario_A)
  ∧ built_from scenario_B cell_10_world (network_at 8 scenario_B)
  ∧ (∃ msgs,
       (load_state_dict two_mt (state_dict two_ms) two_world).1 = outcome msgs
       ∧ (∀ k, reports_missing msgs k
               ↔ k ∈ (state_dict two_mt).*1 ∧ k ∉ (state_dict two_ms).*1)
       ∧ (∀ k, reports_unexpected msgs k
               ↔ k ∈ (state_dict two_ms).*1 ∧ k ∉ (state_dict two_mt).*1)
       ∧ (∀ k s s', SizeMismatch k s s' ∈ msgs
               ↔ (k, s) ∈ param_shapes small_src ∧ (k, s') ∈ param_shapes small_tgt
                 ∧ s ≠ s'))
  ∧ (load_state_dict (network_at 8 scenario_B) (state_dict (network_at 0 scenario_A))
       cell_10_world).1
    = Raise (RuntimeError cell_10_report).
Proof.
  assert (Hb : built_from small_src two_world two_ms
               ∧ built_from small_tgt two_world two_mt) by (vm_compute; tauto).
  assert (Hc : built_from scenario_A cell_10_world (network_at 0 scenario_A)
               ∧ built_from scenario_B cell_10_world (network_at 8 scenario_B))
    by (repeat split; reflexivity).
  destruct Hb as [Hs Ht], Hc as [Ha Hb]. repeat (split; [assumption|]). split.
  - exact (proj1 strict_load_reports_every_incompatibility
             small_src small_tgt two_world two_ms two_mt Hs Ht).
  - exact (proj2 strict_load_reports_every_incompatibility
             cell_10_world (network_at 0 scenario_A) (network_at 8 scenario_B) Ha Hb).
Defined.

(** C1, the claim as stated fails: the first network of [two_models]
    has two inputs and one output; cell 11 records 784 and 10, cell 12
    builds a network of these sizes, and the load raises. *)
Lemma round_trip_fails_for_other_sizes :
  valid small_src
  ∧ built_from small_src two_world two_ms
  ∧ (load_checkpoint "checkpoint.pth" (save_checkpoint two_ms two_world).2).1
    = Raise (RuntimeError
               [ SizeMismatch ["hidden_layers"; "0"; "weight"] [2; 2]%Z [2; 784]%Z;
                 SizeMismatch ["output"; "weight"] [1; 2]%Z [10; 2]%Z;
                 SizeMismatch ["output"; "bias"] [1]%Z [10]%Z ])
  ∧ ¬ round_trip two_world two_ms.
Proof.
  assert (Hr : (load_checkpoint "checkpoint.pth" (save_checkpoint two_ms two_world).2).1
    = Raise (RuntimeError
               [ SizeMismatch ["hidden_layers"; "0"; "weight"] [2; 2]%Z [2; 784]%Z;
                 SizeMismatch ["output"; "weight"] [1; 2]%Z [10; 2]%Z;
                 SizeMismatch ["output"; "bias"] [1]%Z [10]%Z ]))
    by (vm_compute; reflexivity).
  split; [|split; [|split; [exact Hr|]]].
  - unfold valid. simpl. repeat constructor.
  - vm_compute. tauto.
  - intros (m' & w' & Hl & _). rewrite Hl in Hr. discriminate Hr.
Qed.

(** C1 (amended).  For a valid descriptor with input size 784 and
    output size 10 and a model with its layers and shapes, saving with
    cell 11 and loading with cell 12 gives a model whose Parameter Store
    equals, key by key and tensor by tensor, that of the saved model. *)
Theorem round_trip_identity_784_10 :
  ∀ d w m,
    valid d → input_size d = 784%Z → output_size d = 10%Z → built_from d w m →
    round_trip w m.
Proof.
  intros d w m Hv Hi Ho Hb.
  destruct (round_trip_784_10 d w m Hv Hi Ho Hb) as (m' & w' & store & Hl & Hs & Hs' & _).
  exists m', w'. split; [done|]. split; [by rewrite Hs|]. by rewrite Hs, Hs'.
Qed.

Definition narrow : descriptor :=
  {| input_size := 784; output_size := 10; hidden_sizes := [2%Z] |}.

Lemma round_trip_identity_784_10_witness :
  valid narrow ∧ input_size narrow = 784%Z ∧ output_size narrow = 10%Z
  ∧ built_from narrow (World (zero_store narrow) ∅ stream 0) (network_at 0 narrow)
  ∧ round_trip (World (zero_store narrow) ∅ stream 0) (network_at 0 narrow).
Proof.
  assert (Hv : valid narrow) by (unfold valid; simpl; repeat constructor).
  assert (Hb : built_from narrow (World (zero_store narrow) ∅ stream 0) (network_at 0 narrow))
    by (repeat split; reflexivity).
  repeat (split; [done|]).
  exact (round_trip_identity_784_10 narrow _ _ Hv eq_refl eq_refl Hb).
Defined.

(** C4.  For a valid descriptor the factory returns a model, from any
    world, and the keys and shapes of its Parameter Store are
    [param_shapes d], a function of the descriptor alone: two models
    built from the same descriptor in two worlds, whatever the state of
    the generator in each, have the same keys with the same shapes, in
    the same order. *)
Theorem shapes_depend_on_the_descriptor_alone :
  ∀ d, valid d →
    (∀ w, ∃ m w', build d w = (Ok m, w')
                  ∧ shapes_of (heap w') (state_dict m) = Some (param_shapes d))
    ∧ (∀ w1 w2 m1 m2 w1' w2',
         build d w1 = (Ok m1, w1') → build d w2 = (Ok m2, w2') →
         shapes_of (heap w1') (state_dict m1) = shapes_of (heap w2') (state_dict m2)).
Proof.
  intros d Hd.
  assert (Hbuild : ∀ w, ∃ m w', build d w = (Ok m, w')
                    ∧ shapes_of (heap w') (state_dict m) = Some (param_shapes d)).
  { intros w. destruct (Network_run d w Hd) as (m & new & pos & Hrun & Hb & _).
    eexists _, _. split; [exact Hrun|]. exact (built_from_shapes _ _ _ Hb). }
  split; [exact Hbuild|].
  intros w1 w2 m1 m2 w1' w2' H1 H2.
  destruct (Hbuild w1) as (m1' & w1'' & H1' & Hs1).
  destruct (Hbuild w2) as (m2' & w2'' & H2' & Hs2).
  rewrite H1 in H1'. rewrite H2 in H2'.
  injection H1' as <- <-. injection H2' as <- <-. by rewrite Hs1, Hs2.
Qed.

Lemma shapes_depend_on_the_descriptor_alone_witness :
  valid small_src
  ∧ (∀ w, ∃ m w', build small_src w = (Ok m, w')
                  ∧ shapes_of (heap w') (state_dict m) = Some (param_shapes small_src))
  ∧ (∀ w1 w2 m1 m2 w1' w2',
       build small_src w1 = (Ok m1, w1') → build small_src w2 = (Ok m2, w2') →
       shapes_of (heap w1') (state_dict m1) = shapes_of (heap w2') (state_dict m2)).
Proof.
  assert (Hv : valid small_src) by (unfold valid; simpl; repeat constructor).
  split; [exact Hv|]. exact (shapes_depend_on_the_descriptor_alone small_src Hv).
Defined.











(** C9.  The dictionary of cell 11 records the output widths of the
    hidden layers of the model, in their order, and the constants 784
    and 10 whatever the model is; the architecture it records is the one
    the model has exactly when the input width of the model is 784 and
    its output width is 10. *)
Theorem saved_architecture_is_introspected_and_constant :
  ∀ m,
    recorded (checkpoint m)
    = Some {| input_size := 784; output_size := 10;
              hidden_sizes := out_features <$> fc_model.hidden_layers m |}
    ∧ (recorded (checkpoint m) = Some (architecture m)
       ↔ input_width m = 784%Z ∧ output_width m = 10%Z).
Proof.
  intros m. split; [done|]. unfold architecture.
  change (recorded (checkpoint m))
    with (Some {| input_size := 784; output_size := 10;
                  hidden_sizes := out_features <$> fc_model.hidden_layers m |}).
  split.
  - by intros [= <- <-].
  - by intros [-> ->].
Qed.

Lemma built_from_train d w m mode : built_from d w (train mode m) ↔ built_from d w m.
Proof. done. Qed.

(** C8.  The dictionary of cell 11 has the four entries [input_size],
    [output_size], [hidden_layers] and [state_dict] and no other; the
    training flag of the model is not in it.  Setting the flag either
    way changes neither the dictionary, nor the state dict, nor what the
    save does to the world.  For a model of the architecture of
    Scenario A, with the flag set either way before the save, the load
    returns a model with the saved Parameter Store; the loaded model is
    in training mode whatever the flag was. *)
Theorem training_flag_is_not_saved :
  (∀ m, (checkpoint m).*1 = ["input_size"; "output_size"; "hidden_layers"; "state_dict"])
  ∧ (∀ m mode w,
       checkpoint (train mode m) = checkpoint m
       ∧ state_dict (train mode m) = state_dict m
       ∧ param_store w (train mode m) = param_store w m
       ∧ save_checkpoint (train mode m) w = save_checkpoint m w)
  ∧ (∀ w m mode,
       built_from scenario_A w m →
       ∃ m' w' store,
         load_checkpoint "checkpoint.pth" (save_checkpoint (train mode m) w).2 = (Ok m', w')
         ∧ param_store w m = Some store
         ∧ param_store w' m' = Some store
         ∧ is_training m' = true).
Proof.
  split; [done|]. split; [done|].
  intros w m mode Hb.
  assert (Hv : valid scenario_A) by (unfold valid; simpl; repeat constructor).
  apply (built_from_train _ _ _ mode) in Hb.
  destruct (round_trip_784_10 scenario_A w (train mode m) Hv eq_refl eq_refl Hb)
    as (m' & w' & store & Hl & Hs & Hs' & Ht).
  by exists m', w', store.
Qed.

Lemma training_flag_is_not_saved_witness :
  built_from scenario_A cell_10_world (network_at 0 scenario_A)
  ∧ ∃ m' w' store,
      load_checkpoint "checkpoint.pth"
        (save_checkpoint (eval (network_at 0 scenario_A)) cell_10_world).2 = (Ok m', w')
      ∧ param_store cell_10_world (network_at 0 scenario_A) = Some store
      ∧ param_store w' m' = Some store
      ∧ is_training m' = true.
Proof.
  assert (Hb : built_from scenario_A cell_10_world (network_at 0 scenario_A))
    by (repeat split; reflexivity).
  split; [exact Hb|].
  exact (proj2 (proj2 training_flag_is_not_saved)
           cell_10_world (network_at 0 scenario_A) false Hb).
Defined.

(** ** Snapshots *)

Lemma update_fs w u : fs (update w u) = fs w.
Proof. unfold update. by destruct (heap w !! u.1). Qed.

Lemma updates_fs us : ∀ w, fs (updates us w) = fs w.
Proof.
  unfold updates. induction us as [|u us IH]; intros w; [done|].
  simpl. by rewrite IH, update_fs.
Qed.

(** C5.  [torch.save] writes the elements that the parameters hold at
    the time of the call.  Whatever in-place updates the tensors of the
    store undergo afterwards, the file still holds the record of the
    time of the save, and [torch.load] still returns a dictionary whose
    state dict refers to tensors with these elements. *)
Theorem saved_checkpoint_ignores_later_updates :
  ∀ w m store,
    param_store w m = Some store →
    ∀ us,
      let record :=
        pickled_checkpoint (out_features <$> fc_model.hidden_layers m) store in
      let w1 := updates us (save_checkpoint m w).2 in
      (save_checkpoint m w).1 = Ok ()
      ∧ fs w1 !! "checkpoint.pth" = Some (Pickle record)
      ∧ ∃ sd w2,
          torch.load "checkpoint.pth" w1
          = (Ok (loaded_record 784 10 (out_features <$> fc_model.hidden_layers m) sd), w2)
          ∧ values_of (heap w2) sd = Some store.
Proof.
  intros w m store Hs us record w1. unfold w1, record.
  rewrite (save_checkpoint_run _ _ _ Hs). cbn [fst snd]. split; [done|].
  assert (Hf : fs (updates us (set_fs (<["checkpoint.pth" :=
                 Pickle (pickled_checkpoint (out_features <$> fc_model.hidden_layers m)
                           store)]> (fs w)) w)) !! "checkpoint.pth"
               = Some (Pickle (pickled_checkpoint
                                 (out_features <$> fc_model.hidden_layers m) store))).
  { rewrite updates_fs. simpl. apply lookup_insert_eq. }
  split; [exact Hf|]. eexists _, _. split.
  - exact (load_record_run _ _ _ _ _ _ Hf).
  - simpl. apply values_of_unpickled.
Qed.

(** The dictionary [checkpoint] itself, before it is saved, refers to
    the live tensors: after the update of one, pickling it gives other
    elements. *)
Lemma checkpoint_dictionary_shares_the_live_tensors :
  let w := update two_world (3, [99%Z]) in
  (torch.pickle (PyDict (checkpoint two_ms)) two_world).1
  ≠ (torch.pickle (PyDict (checkpoint two_ms)) w).1.
Proof. vm_compute. congruence. Qed.

Lemma saved_checkpoint_ignores_later_updates_witness :
  param_store two_world two_ms
  = Some [ (["hidden_layers"; "0"; "weight"], Tensor [2; 2]%Z [0; 1; 2; 3]%Z);
           (["hidden_layers"; "0"; "bias"], Tensor [2]%Z [4; 5]%Z);
           (["output"; "weight"], Tensor [1; 2]%Z [6; 7]%Z);
           (["output"; "bias"], Tensor [1]%Z [8]%Z) ]
  ∧ ∃ sd w2,
      torch.load "checkpoint.pth"
        (updates [(3, [99%Z]); (0, [7; 7; 7; 7]%Z)] (save_checkpoint two_ms two_world).2)
      = (Ok (loaded_record 784 10 [2%Z] sd), w2)
      ∧ values_of (heap w2) sd
        = Some [ (["hidden_layers"; "0"; "weight"], Tensor [2; 2]%Z [0; 1; 2; 3]%Z);
                 (["hidden_layers"; "0"; "bias"], Tensor [2]%Z [4; 5]%Z);
                 (["output"; "weight"], Tensor [1; 2]%Z [6; 7]%Z);
                 (["output"; "bias"], Tensor [1]%Z [8]%Z) ].
Proof.
  assert (Hs : param_store two_world two_ms
    = Some [ (["hidden_layers"; "0"; "weight"], Tensor [2; 2]%Z [0; 1; 2; 3]%Z);
             (["hidden_layers"; "0"; "bias"], Tensor [2]%Z [4; 5]%Z);
             (["output"; "weight"], Tensor [1; 2]%Z [6; 7]%Z);
             (["output"; "bias"], Tensor [1]%Z [8]%Z) ])
    by (vm_compute; reflexivity).
  split; [exact Hs|].
  exact (proj2 (proj2 (saved_checkpoint_ignores_later_updates two_world two_ms _ Hs
                         [(3, [99%Z]); (0, [7; 7; 7; 7]%Z)]))).
Defined.

(** ** Dropout in evaluation mode *)

(** The model that [DropoutClassifier()] returns in the empty world, a
    store for it in which every parameter is zero but the first bias of
    [fc3] and the first weight of [fc4], which are one, and an image of
    zeros. *)
Definition classifier_0 : DropoutClassifier.t :=
  {| DropoutClassifier.fc1 :=
       {| in_features := 784; out_features := 256; weight := 0; bias := 1 |};
     DropoutClassifier.fc2 :=
       {| in_features := 256; out_features := 128; weight := 2; bias := 3 |};
     DropoutClassifier.fc3 :=
       {| in_features := 128; out_features := 64; weight := 4; bias := 5 |};
     DropoutClassifier.fc4 :=
       {| in_features := 64; out_features := 10; weight := 6; bias := 7 |};
     DropoutClassifier.training := true |}.

Definition one_then_zeros (s : list Z) : tensor :=
  Tensor s (1%Z :: repeat 0%Z (Z.to_nat (numel s) - 1)).

Definition trained_store : list tensor :=
  [ zeros [256; 784]%Z; zeros [256]%Z; zeros [128; 256]%Z; zeros [128]%Z;
    zeros [64; 128]%Z; one_then_zeros [64]%Z; one_then_zeros [10; 64]%Z; zeros [10]%Z ].

Definition image_0 : tensor := zeros [1; 1; 28; 28]%Z.

Definition logits_dropped : tensor := zeros [1; 10]%Z.
Definition logits_kept : tensor := Tensor [1; 10]%Z (2%Z :: repeat 0%Z 9).


Lemma dot_zeros x : ∀ k, F.dot x (repeat 0%Z k) = 0%Z.
Proof.
  unfold F.dot. induction x as [|a x IH]; intros [|k]; simpl; try done.
  rewrite IH. lia.
Qed.

Lemma rows_zeros n k : F.rows n k (repeat 0%Z (n * k)) = repeat (repeat 0%Z k) n.
Proof.
  induction n as [|n IH]; [done|].
  simpl. rewrite repeat_app.
  rewrite take_app_length' by (by rewrite repeat_length).
  rewrite drop_app_length' by (by rewrite repeat_length).
  by rewrite IH.
Qed.

Lemma zip_add_zeros bd : zip_with Z.add (repeat 0%Z (length bd)) bd = bd.
Proof. induction bd as [|b bd IH]; [done|]. simpl. by rewrite IH. Qed.

Lemma dots_zeros x k n : F.dot x <$> repeat (repeat 0%Z k) n = repeat 0%Z n.
Proof.
  induction n as [|n IH]; [done|].
  cbn [repeat]. rewrite fmap_cons, dot_zeros, IH. done.
Qed.

(** A layer whose weights are zero returns its bias. *)
Lemma linear_zeros xd i o bd :
  (0 ≤ i)%Z → (0 ≤ o)%Z → length bd = Z.to_nat o →
  F.linear (Tensor [1; i]%Z xd) (zeros [o; i]%Z) (Tensor [o] bd) = Ok (Tensor [1; o]%Z bd).
Proof.
  intros Hi Ho Hb. unfold F.linear, zeros. cbn [t_shape t_data].
  rewrite decide_True by done.
  replace (Z.to_nat (numel [o; i])) with (Z.to_nat o * Z.to_nat i)
    by (unfold numel; simpl; rewrite Z.mul_1_r; symmetry; by apply Z2Nat.inj_mul).
  rewrite rows_zeros. change (Z.to_nat 1) with 1. cbn [F.rows fmap list_fmap concat].
  rewrite dots_zeros, <-Hb, zip_add_zeros. by rewrite app_nil_r.
Qed.

Lemma Linear_call_run l x w W b :
  heap w !! weight l = Some W → heap w !! bias l = Some b →
  Linear_call l x w = (F.linear x W b, w).
Proof.
  intros HW Hb. unfold Linear_call.
  rewrite (bind_ok _ _ _ _ _ (read_ok _ _ _ HW)).
  by rewrite (bind_ok _ _ _ _ _ (read_ok _ _ _ Hb)).
Qed.

Lemma dropout_run t w n :
  length (t_data t) = n →
  F.dropout t true w
  = (Ok (Tensor (t_shape t)
           (zip_with (λ x r, if Z.odd r then (2 * x)%Z else 0%Z) (t_data t)
              (rng w <$> seq (rng_pos w) n))),
     World (heap w) (fs w) (rng w) (rng_pos w + n)).
Proof. intros <-. done. Qed.

(** The forward pass of [classifier_0] on the zero image with the
    parameters of [trained_store], for any generator: the logits are
    those of [fc4] on what the third dropout leaves of the bias of
    [fc3], that is, on the draws 384 to 447. *)
Lemma forward_trained ls g :
  (DropoutClassifier.forward ls (eval classifier_0) image_0 (World trained_store ∅ g 0)).1
  = match F.linear
            (Tensor [1; 64]%Z
               (zip_with (λ x r, if Z.odd r then (2 * x)%Z else 0%Z)
                  (1%Z :: repeat 0%Z 63) (g <$> seq 384 64)))
            (one_then_zeros [10; 64]%Z) (zeros [10]%Z) with
    | Ok y => Ok (ls y)
    | Raise e => Raise e
    end.
Proof.
  unfold DropoutClassifier.forward.
  set (w0 := World trained_store ∅ g 0).
  assert (H0 : lift (F.flatten image_0) w0
               = (Ok (Tensor [1; 784]%Z (t_data image_0)), w0)) by reflexivity.
  rewrite (bind_ok _ _ _ _ _ H0). clear H0.
  assert (H1 : Linear_call (DropoutClassifier.fc1 (eval classifier_0))
                 (Tensor [1; 784]%Z (t_data image_0)) w0
               = (Ok (Tensor [1; 256]%Z (repeat 0%Z 256)), w0)).
  { rewrite (Linear_call_run _ _ _ (zeros [256; 784]%Z) (zeros [256]%Z)) by reflexivity.
    apply (f_equal (λ r, (r, w0))).
    exact (linear_zeros _ 784 256 (repeat 0%Z 256) ltac:(done) ltac:(done) eq_refl). }
  rewrite (bind_ok _ _ _ _ _ H1). clear H1.
  rewrite (bind_ok _ _ _ _ _
             (dropout_run (F.relu (Tensor [1; 256]%Z (repeat 0%Z 256))) _ 256 eq_refl)).
  cbn [F.relu t_shape t_data].
  set (w1 := World _ _ _ _).
  assert (H2 : ∀ xd, Linear_call (DropoutClassifier.fc2 (eval classifier_0))
                 (Tensor [1; 256]%Z xd) w1
               = (Ok (Tensor [1; 128]%Z (repeat 0%Z 128)), w1)).
  { intros xd.
    rewrite (Linear_call_run _ _ _ (zeros [128; 256]%Z) (zeros [128]%Z)) by reflexivity.
    apply (f_equal (λ r, (r, w1))).
    exact (linear_zeros _ 256 128 (repeat 0%Z 128) ltac:(done) ltac:(done) eq_refl). }
  rewrite (bind_ok _ _ _ _ _ (H2 _)). clear H2.
  rewrite (bind_ok _ _ _ _ _
             (dropout_run (F.relu (Tensor [1; 128]%Z (repeat 0%Z 128))) _ 128 eq_refl)).
  cbn [F.relu t_shape t_data].
  set (w2 := World _ _ _ _).
  assert (H3 : ∀ xd, Linear_call (DropoutClassifier.fc3 (eval classifier_0))
                 (Tensor [1; 128]%Z xd) w2
               = (Ok (Tensor [1; 64]%Z (1%Z :: repeat 0%Z 63)), w2)).
  { intros xd.
    rewrite (Linear_call_run _ _ _ (zeros [64; 128]%Z) (one_then_zeros [64]%Z)) by reflexivity.
    apply (f_equal (λ r, (r, w2))).
    exact (linear_zeros _ 128 64 (1%Z :: repeat 0%Z 63) ltac:(done) ltac:(done) eq_refl). }
  rewrite (bind_ok _ _ _ _ _ (H3 _)). clear H3.
  rewrite (bind_ok _ _ _ _ _
             (dropout_run (F.relu (Tensor [1; 64]%Z (1%Z :: repeat 0%Z 63))) _ 64 eq_refl)).
  cbn [F.relu t_shape t_data].
  set (w3 := World _ _ _ _).
  rewrite bind_run.
  rewrite (Linear_call_run _ _ _ (one_then_zeros [10; 64]%Z) (zeros [10]%Z)) by reflexivity.
  unfold lift.
  change (rng w2) with g. change (rng_pos w2) with 384.
  replace (Z.max 0 <$> 1%Z :: repeat 0%Z 63) with (1%Z :: repeat 0%Z 63)
    by (vm_compute; reflexivity).
  by destruct (F.linear _ _ _).
Qed.

Lemma init_returns_classifier_0 g :
  (DropoutClassifier.init (fresh_world g)).1 = Ok classifier_0.
Proof.
  unfold DropoutClassifier.init.
  destruct (nn_Linear_run 784 256 (fresh_world g)) as (tw1 & tb1 & p1 & H1 & _).
  rewrite (bind_ok _ _ _ _ _ H1).
  destruct (nn_Linear_run 256 128 (World (heap (fresh_world g) ++ [tw1; tb1])
              (fs (fresh_world g)) (rng (fresh_world g)) p1)) as (tw2 & tb2 & p2 & H2 & _).
  rewrite (bind_ok _ _ _ _ _ H2).
  destruct (nn_Linear_run 128 64 (World (([] ++ [tw1; tb1]) ++ [tw2; tb2]) ∅ g p2))
    as (tw3 & tb3 & p3 & H3 & _).
  rewrite (bind_ok _ _ _ _ _ H3).
  destruct (nn_Linear_run 64 10
              (World ((([] ++ [tw1; tb1]) ++ [tw2; tb2]) ++ [tw3; tb3]) ∅ g p3))
    as (tw4 & tb4 & p4 & H4 & _).
  by rewrite (bind_ok _ _ _ _ _ H4).
Qed.

(** C10.  The forward pass of [DropoutClassifier] does not read the
    training flag: it is the same computation, with the same draws from
    the generator, whatever the flag is.  In evaluation mode it is still
    not a function of the parameters and the input: for the model that
    [DropoutClassifier()] returns, put in evaluation mode, with the
    parameters of [trained_store] and the zero image, a generator whose
    draws are all even gives the logits [0, 0, ..., 0] to
    [F.log_softmax] and one whose draws are all odd gives
    [2, 0, ..., 0]; the two outputs differ as soon as [F.log_softmax]
    tells these two rows apart. *)
Theorem dropout_stays_on_in_evaluation_mode :
  (∀ ls (m : DropoutClassifier.t) mode x w,
     DropoutClassifier.forward ls (train mode m) x w = DropoutClassifier.forward ls m x w)
  ∧ (∀ g, (DropoutClassifier.init (fresh_world g)).1 = Ok classifier_0)
  ∧ is_training (eval classifier_0) = false
  ∧ (∀ ls,
       let run g := (DropoutClassifier.forward ls (eval classifier_0) image_0
                       (World trained_store ∅ g 0)).1 in
       run (λ _, 0%Z) = Ok (ls logits_dropped)
       ∧ run (λ _, 1%Z) = Ok (ls logits_kept)
       ∧ (ls logits_dropped ≠ ls logits_kept → run (λ _, 0%Z) ≠ run (λ _, 1%Z))).
Proof.
  split; [done|]. split; [apply init_returns_classifier_0|]. split; [done|].
  intros ls run.
  assert (H0 : run (λ _, 0%Z) = Ok (ls logits_dropped)).
  { unfold run. rewrite forward_trained. vm_compute. reflexivity. }
  assert (H1 : run (λ _, 1%Z) = Ok (ls logits_kept)).
  { unfold run. rewrite forward_trained. vm_compute. reflexivity. }
  split; [exact H0|]. split; [exact H1|].
  intros Hne. rewrite H0, H1. congruence.
Qed.

Lemma dropout_stays_on_in_evaluation_mode_witness :
  logits_dropped ≠ logits_kept
  ∧ (DropoutClassifier.forward (λ x, x) (eval classifier_0) image_0
       (World trained_store ∅ (λ _, 0%Z) 0)).1
    ≠ (DropoutClassifier.forward (λ x, x) (eval classifier_0) image_0
         (World trained_store ∅ (λ _, 1%Z) 0)).1.
Proof.
  assert (Hne : logits_dropped ≠ logits_kept) by (vm_compute; congruence).
  split; [exact Hne|].
  exact (proj2 (proj2 (proj2 (proj2 (proj2 dropout_stays_on_in_evaluation_mode))
                               (λ x, x))) Hne).
Defined.

(** * More of the notebooks *)

(** ** Cells 7 to 9: the state dict alone *)

(** Cell 7: [torch.save(model.state_dict(), 'checkpoint.pth')]. *)
Definition save_state_dict (model : fc_model.t) : M unit :=
  torch.save (PyVal (PyStateDict (state_dict model))) "checkpoint.pth".

(** What [model.load_state_dict] is given in cell 9 must be a state
    dict. *)
Definition as_loaded_state_dict (o : pyobj) : M (list (key * loc)) :=
  match o with
  | PyVal (PyStateDict sd) => mret sd
  | _ => raise TypeError
  end.

(** Cells 7, 8 and 9 in a row: save the state dict, load it back, load
    it into the model it came from. *)
Definition cells_7_to_9 (model : fc_model.t) : M unit :=
  _ ← save_state_dict model;
  state_dict ← torch.load "checkpoint.pth";
  sd ← as_loaded_state_dict state_dict;
  load_state_dict model sd.

Lemma save_state_dict_run m w store :
  param_store w m = Some store →
  save_state_dict m w
  = (Ok (), set_fs (<["checkpoint.pth" := Pickle (PkVal (PkStateDict store))]> (fs w)) w).
Proof.
  intros Hs. unfold save_state_dict, torch.save.
  assert (Hp : torch.pickle (PyVal (PyStateDict (state_dict m))) w
               = (Ok (PkVal (PkStateDict store)), w)).
  { unfold torch.pickle, torch.pickle_val.
    by rewrite (bind_ok _ _ _ _ _ (bind_ok _ _ _ _ _ (pickle_entries_run _ _ _ Hs))). }
  by rewrite (bind_ok _ _ _ _ _ Hp).
Qed.

Lemma load_state_dict_file_run path w store :
  fs w !! path = Some (Pickle (PkVal (PkStateDict store))) →
  torch.load path w
  = (Ok (PyVal (PyStateDict (zip store.*1 (seq (length (heap w)) (length store))))),
     set_heap (heap w ++ store.*2) w).
Proof.
  intros Hf. unfold torch.load.
  assert (Hr : read_file path w = (Ok (Some (Pickle (PkVal (PkStateDict store)))), w))
    by (unfold read_file; by rewrite Hf).
  rewrite (bind_ok _ _ _ _ _ Hr). unfold torch.unpickle, torch.unpickle_val.
  by rewrite (bind_ok _ _ _ _ _ (bind_ok _ _ _ _ _ (unpickle_entries_run _ _))).
Qed.

Lemma values_of_lt {K} h (ps : list (K * loc)) r l :
  values_of h ps = Some r → l ∈ ps.*2 → l < length h.
Proof.
  rewrite values_of_Forall2. intros HF Hl.
  apply list_elem_of_fmap in Hl as ([k l'] & -> & Hin).
  apply list_elem_of_lookup in Hin as [j Hj].
  destruct (Forall2_lookup_l _ _ _ _ _ HF Hj) as (y & _ & _ & Hy).
  by eapply lookup_lt_Some.
Qed.

Lemma built_from_grow d w w' m new :
  heap w' = heap w ++ new → built_from d w m → built_from d w' m.
Proof.
  intros Hh [Hhid Hout]. unfold built_from. rewrite Hh.
  split; [by apply hidden_ok_app | by apply linear_ok_app].
Qed.

(** X1.  For a network with the layers and shapes of any descriptor,
    whose parameters are distinct tensors, cells 7 to 9 run without an
    error ("All keys matched successfully") and leave every parameter
    with the elements it had. *)
Theorem state_dict_round_trip_in_place :
  ∀ d w m,
    built_from d w m → NoDup (state_dict m).*2 →
    ∃ w', cells_7_to_9 m w = (Ok (), w')
          ∧ is_Some (param_store w m)
          ∧ param_store w' m = param_store w m.
Proof.
  intros d w m Hb Hnd.
  destruct (built_from_store _ _ _ Hb) as (store & Hstore & Hshapes).
  unfold cells_7_to_9.
  rewrite (bind_ok _ _ _ _ _ (save_state_dict_run _ _ _ Hstore)).
  set (w1 := set_fs _ w).
  rewrite (bind_ok _ _ _ _ _
             (load_state_dict_file_run "checkpoint.pth" w1 store (lookup_insert_eq _ _ _))).
  set (sd := zip store.*1 _). set (w2 := set_heap _ w1).
  unfold as_loaded_state_dict. rewrite bind_run. cbn [mret M_ret].
  assert (Hsd : values_of (heap w2) sd = Some store) by apply values_of_unpickled.
  assert (Hsrc : shapes_of (heap w2) sd = Some (param_shapes d)).
  { rewrite <-Hshapes. by apply values_of_shapes. }
  assert (Hb2 : built_from d w2 m) by (by apply (built_from_grow d w w2 m store.*2)).
  assert (Hld := load_state_dict_run (H := Network_Module) m sd _ _ w2 Hsrc
                   (built_from_views _ _ _ Hb2)).
  rewrite strict_report_same in Hld. unfold outcome in Hld. simpl in Hld.
  rewrite Hld. eexists. split; [done|]. split; [by rewrite Hstore|].
  rewrite Hstore. unfold param_store. simpl. apply load_all.
  - exact Hsd.
  - replace store.*1 with (param_shapes d).*1; [apply NoDup_param_shapes|].
    rewrite <-Hshapes, <-list_fmap_compose. done.
  - rewrite Hshapes. exact (built_from_shapes d w2 m Hb2).
  - done.
  - intros l Hl Hin. unfold sd in Hl. rewrite unpickled_locs in Hl.
    apply elem_of_seq in Hl. apply (values_of_lt _ _ _ _ Hstore) in Hin.
    unfold w1 in Hl. simpl in Hl. lia.
Qed.

Lemma state_dict_round_trip_in_place_witness :
  built_from small_src two_world two_ms
  ∧ NoDup (state_dict two_ms).*2
  ∧ ∃ w', cells_7_to_9 two_ms two_world = (Ok (), w')
          ∧ is_Some (param_store two_world two_ms)
          ∧ param_store w' two_ms = param_store two_world two_ms.
Proof.
  assert (Hb : built_from small_src two_world two_ms) by (vm_compute; tauto).
  assert (Hnd : NoDup (state_dict two_ms).*2)
    by (apply (bool_decide_unpack _); vm_compute; exact I).
  split; [exact Hb|]. split; [exact Hnd|].
  exact (state_dict_round_trip_in_place small_src two_world two_ms Hb Hnd).
Defined.

(** ** What [load_checkpoint] does with another file *)

Lemma getitem_zip_None {A} (ks : list key) (vs : list A) k :
  k ∉ ks → getitem (zip ks vs) k = None.
Proof.
  intros Hk. apply getitem_None. intros Hin. apply Hk.
  apply list_elem_of_fmap in Hin as ([k' v] & -> & Hin).
  by apply elem_of_zip_l in Hin.
Qed.

(** X2.  Cells 7 and 11 write the same path.  On the file that cell 7
    leaves, the state dict alone, [load_checkpoint] raises
    [KeyError: 'input_size']: [torch.load] has created the tensors of the
    state dict and no network has been built. *)
Theorem bare_state_dict_is_not_a_checkpoint :
  ∀ d w m,
    built_from d w m →
    ∃ store w',
      param_store w m = Some store
      ∧ load_checkpoint "checkpoint.pth" (save_state_dict m w).2
        = (Raise (KeyError "input_size"), w')
      ∧ heap w' = heap w ++ store.*2.
Proof.
  intros d w m Hb.
  destruct (built_from_store _ _ _ Hb) as (store & Hstore & Hshapes).
  exists store. rewrite (save_state_dict_run _ _ _ Hstore). cbn [snd].
  set (w1 := set_fs _ w). unfold load_checkpoint.
  rewrite (bind_ok _ _ _ _ _
             (load_state_dict_file_run "checkpoint.pth" w1 store (lookup_insert_eq _ _ _))).
  rewrite bind_run. unfold subscript.
  rewrite getitem_zip_None.
  - eexists. split; [done|]. split; [done|]. done.
  - replace store.*1 with (param_shapes d).*1
      by (rewrite <-Hshapes, <-list_fmap_compose; done).
    rewrite param_shapes_keys.
    intros [(i & p & _ & _ & [=])|(p & _ & [=])]%elem_of_state_keys.
Qed.

Lemma bare_state_dict_is_not_a_checkpoint_witness :
  built_from small_src two_world two_ms
  ∧ ∃ store w',
      param_store two_world two_ms = Some store
      ∧ load_checkpoint "checkpoint.pth" (save_state_dict two_ms two_world).2
        = (Raise (KeyError "input_size"), w')
      ∧ heap w' = heap two_world ++ store.*2.
Proof.
  assert (Hb : built_from small_src two_world two_ms) by (vm_compute; tauto).
  split; [exact Hb|].
  exact (bare_state_dict_is_not_a_checkpoint small_src two_world two_ms Hb).
Defined.

Lemma network_locs_length m :
  length (network_locs m) = 2 * (length (fc_model.hidden_layers m) + 1).
Proof.
  unfold network_locs, layer_locs.
  induction (fc_model.hidden_layers m) as [|l ls IH]; [done|].
  rewrite <-app_comm_cons, fmap_cons. cbn [concat]. rewrite length_app, IH.
  simpl. lia.
Qed.

(** X3.  On a dictionary that lacks one of [input_size], [output_size],
    [hidden_layers], [load_checkpoint] raises the [KeyError] of the
    first one that is missing, in the world that [torch.load] left:
    nothing has been built.  On a dictionary with these three entries,
    of a valid architecture, that lacks [state_dict], it raises
    [KeyError: 'state_dict'] after the network has been built: the
    store has grown by the two parameters of each layer. *)
Theorem key_errors_of_load_checkpoint :
  ∀ path w w1 dict,
    torch.load path w = (Ok (PyDict dict), w1) →
    (getitem dict "input_size" = None →
       load_checkpoint path w = (Raise (KeyError "input_size"), w1))
    ∧ (is_Some (getitem dict "input_size") → getitem dict "output_size" = None →
         load_checkpoint path w = (Raise (KeyError "output_size"), w1))
    ∧ (is_Some (getitem dict "input_size") → is_Some (getitem dict "output_size") →
         getitem dict "hidden_layers" = None →
         load_checkpoint path w = (Raise (KeyError "hidden_layers"), w1))
    ∧ (∀ d, valid d →
         getitem dict "input_size" = Some (PyInt (input_size d)) →
         getitem dict "output_size" = Some (PyInt (output_size d)) →
         getitem dict "hidden_layers" = Some (PyIntList (hidden_sizes d)) →
         getitem dict "state_dict" = None →
         ∃ m new pos,
           load_checkpoint path w
           = (Raise (KeyError "state_dict"), World (heap w1 ++ new) (fs w1) (rng w1) pos)
           ∧ built_from d (World (heap w1 ++ new) (fs w1) (rng w1) pos) m
           ∧ length new = 2 * (length (hidden_sizes d) + 1)).
Proof.
  intros path w w1 dict Hl. unfold load_checkpoint.
  rewrite (bind_ok _ _ _ _ _ Hl). unfold subscript.
  split; [|split; [|split]].
  - intros ->. done.
  - intros [v ->] ->. done.
  - intros [v ->] [v' ->] ->. done.
  - intros d Hd -> -> -> ->.
    destruct (Network_run d w1 Hd) as (m & new & pos & Hrun & Hb & Hlocs & _).
    exists m, new, pos. unfold build in Hrun.
    do 6 (erewrite bind_ok; [|reflexivity]).
    rewrite (bind_ok _ _ _ _ _ Hrun). split; [done|]. split; [done|].
    assert (Hlen := network_locs_length m).
    rewrite Hlocs, length_seq in Hlen. rewrite Hlen.
    destruct Hb as [Hh _]. by rewrite (hidden_ok_length _ _ _ _ Hh).
Qed.

(** A file with the three sizes of [narrow] and no state dict. *)
Definition sizes_only_world : world :=
  World [] {[ "checkpoint.pth" :=
              Pickle (PkDict [ ("input_size", PkInt 784); ("output_size", PkInt 10);
                               ("hidden_layers", PkIntList [2%Z]) ]) ]} stream 0.

Lemma key_errors_of_load_checkpoint_witness :
  torch.load "checkpoint.pth" sizes_only_world
  = (Ok (PyDict [ ("input_size", PyInt 784); ("output_size", PyInt 10);
                  ("hidden_layers", PyIntList [2%Z]) ]), sizes_only_world)
  ∧ valid narrow
  ∧ ∃ m new pos,
      load_checkpoint "checkpoint.pth" sizes_only_world
      = (Raise (KeyError "state_dict"),
         World (heap sizes_only_world ++ new) (fs sizes_only_world)
           (rng sizes_only_world) pos)
      ∧ built_from narrow
          (World (heap sizes_only_world ++ new) (fs sizes_only_world)
             (rng sizes_only_world) pos) m
      ∧ length new = 2 * (length (hidden_sizes narrow) + 1).
Proof.
  assert (Hl : torch.load "checkpoint.pth" sizes_only_world
               = (Ok (PyDict [ ("input_size", PyInt 784); ("output_size", PyInt 10);
                               ("hidden_layers", PyIntList [2%Z]) ]), sizes_only_world))
    by (vm_compute; reflexivity).
  assert (Hv : valid narrow) by (unfold valid; simpl; repeat constructor).
  split; [exact Hl|]. split; [exact Hv|].
  exact (proj2 (proj2 (proj2 (key_errors_of_load_checkpoint _ _ _ _ Hl)))
           narrow Hv eq_refl eq_refl eq_refl eq_refl).
Defined.

(** ** [load_checkpoint] on any consistent record *)

Lemma hidden_ok_same_shapes h h' sizes : ∀ prev ls,
  (∀ l, shape_at h' l = shape_at h l) →
  hidden_ok h prev sizes ls → hidden_ok h' prev sizes ls.
Proof.
  induction sizes as [|s sizes IH]; intros prev [|l ls] Hat; simpl; try done.
  unfold linear_ok. rewrite !Hat. intros [? ?]. split; [done|]. by apply IH.
Qed.

Lemma built_from_same_shapes d w w' m :
  t_shape <$> heap w' = t_shape <$> heap w → built_from d w m → built_from d w' m.
Proof.
  intros Hsh. unfold built_from, linear_ok.
  assert (Hat : ∀ l, shape_at (heap w') l = shape_at (heap w) l)
    by (intros l; by rewrite !shape_at_fmap, Hsh).
  intros [Hh Ho]. split.
  - by apply (hidden_ok_same_shapes (heap w)).
  - by rewrite !Hat.
Qed.

Lemma foldl_param_effect_prefix sd (tgt : list (key * loc)) h0 : ∀ h,
  (∀ l, l ∈ tgt.*2 → length h0 ≤ l) →
  h0 `prefix_of` h → h0 `prefix_of` foldl (param_effect sd) h tgt.
Proof.
  intros h Hge [k ->].
  exists (drop (length h0) (foldl (param_effect sd) (h0 ++ k) tgt)).
  rewrite <-(take_drop (length h0) (foldl _ _ _)) at 1. f_equal.
  apply list_eq. intros i. destruct (decide (i < length h0)) as [Hi|Hi].
  - rewrite lookup_take_lt by done.
    rewrite foldl_param_effect_other.
    + by rewrite lookup_app_l.
    + intros Hin. apply Hge in Hin. lia.
  - rewrite lookup_take_ge by lia. symmetry. apply lookup_ge_None. lia.
Qed.

Lemma load_checkpoint_run path w d store :
  valid d →
  fs w !! path
  = Some (Pickle (pickled_record (input_size d) (output_size d) (hidden_sizes d) store)) →
  (λ e, (e.1, t_shape e.2)) <$> store = param_shapes d →
  ∃ m' w',
    load_checkpoint path w = (Ok m', w')
    ∧ built_from d w' m'
    ∧ param_store w' m' = Some store
    ∧ fc_model.training m' = true
    ∧ fs w' = fs w
    ∧ heap w `prefix_of` heap w'.
Proof.
  intros Hvalid Hf Hshapes.
  rewrite (load_checkpoint_record _ _ _ _ _ _ _ (load_record_run _ _ _ _ _ _ Hf)).
  set (sd := zip store.*1 _). set (w2 := set_heap _ w).
  destruct (Network_run d w2 Hvalid) as (m' & new & pos & Hrun & Hb' & Hlocs & Htr).
  unfold build in Hrun. rewrite (bind_ok _ _ _ _ _ Hrun).
  set (w3 := World _ _ _ _) in *.
  assert (Hsd : values_of (heap w3) sd = Some store).
  { apply values_of_app_l. apply values_of_unpickled. }
  assert (Hkeys : NoDup store.*1).
  { replace store.*1 with (param_shapes d).*1; [apply NoDup_param_shapes|].
    rewrite <-Hshapes, <-list_fmap_compose. done. }
  assert (Hsrc : shapes_of (heap w3) sd = Some (param_shapes d)).
  { rewrite <-Hshapes. by apply values_of_shapes. }
  assert (Hld := load_state_dict_run (H := Network_Module) m' sd _ _ w3 Hsrc
                   (built_from_views _ _ _ Hb')).
  rewrite strict_report_same in Hld. unfold outcome in Hld. simpl in Hld.
  rewrite (bind_ok _ _ _ _ _ Hld). simpl.
  eexists _, _. split; [done|]. split; [|split; [|split; [done|split; [done|]]]].
  - eapply built_from_same_shapes; [|exact Hb']. simpl.
    apply foldl_param_effect_shapes.
  - unfold param_store. simpl. apply load_all.
    + exact Hsd.
    + done.
    + rewrite Hshapes. exact (built_from_shapes d w3 m' Hb').
    + rewrite state_dict_locs, Hlocs. apply NoDup_seq.
    + intros l Hl. rewrite state_dict_locs, Hlocs.
      unfold sd in Hl. rewrite unpickled_locs in Hl.
      apply elem_of_seq in Hl. rewrite elem_of_seq.
      unfold w2 in *. simpl in *. rewrite length_app, length_fmap. lia.
  - simpl. apply foldl_param_effect_prefix.
    + intros l. rewrite state_dict_locs, Hlocs, elem_of_seq.
      unfold w2. simpl. rewrite length_app. lia.
    + rewrite <-app_assoc. by eexists.
Qed.

Lemma built_from_architecture d w m : built_from d w m → architecture m = d.
Proof.
  intros [Hh Ho]. destruct d as [i o hs]. unfold architecture. simpl in *.
  assert (Hhs := hidden_ok_out _ _ _ _ Hh).
  destruct Ho as (Hin & Hout & _). f_equal; [|done|done].
  unfold input_width. destruct hs as [|s hs], (fc_model.hidden_layers m) as [|l ls];
    simpl in *; try done.
  by destruct Hh as [(? & _) _].
Qed.

(** A record of [small_src] under another path. *)
Definition small_store : list (key * tensor) :=
  [ (["hidden_layers"; "0"; "weight"], Tensor [2; 2]%Z [1; 2; 3; 4]%Z);
    (["hidden_layers"; "0"; "bias"], Tensor [2]%Z [5; 6]%Z);
    (["output"; "weight"], Tensor [1; 2]%Z [7; 8]%Z);
    (["output"; "bias"], Tensor [1]%Z [9]%Z) ].

Definition small_file_world : world :=
  World [Tensor [1]%Z [42%Z]]
    {[ "small.pth" := Pickle (pickled_record 2 1 [2%Z] small_store) ]} stream 0.

(** X4.  [load_checkpoint] does not depend on the sizes of cell 11: on a
    file, under any path, that holds the three sizes of a valid
    architecture and a state dict with the keys and shapes of that
    architecture, it returns a model of this architecture, in training
    mode, whose parameters hold the elements of the file.  No file and
    no tensor that existed before is changed. *)
Theorem load_checkpoint_restores_a_consistent_record :
  ∀ path w d store,
    valid d →
    fs w !! path
    = Some (Pickle (pickled_record (input_size d) (output_size d) (hidden_sizes d) store)) →
    (λ e, (e.1, t_shape e.2)) <$> store = param_shapes d →
    ∃ m' w',
      load_checkpoint path w = (Ok m', w')
      ∧ architecture m' = d
      ∧ param_store w' m' = Some store
      ∧ fc_model.training m' = true
      ∧ fs w' = fs w
      ∧ heap w `prefix_of` heap w'.
Proof.
  intros path w d store Hv Hf Hs.
  destruct (load_checkpoint_run path w d store Hv Hf Hs)
    as (m' & w' & Hrun & Hb & Hstore & Htr & Hfs & Hpre).
  exists m', w'. repeat split; try done. by eapply built_from_architecture.
Qed.

Lemma load_checkpoint_restores_a_consistent_record_witness :
  valid small_src
  ∧ ∃ m' w',
      load_checkpoint "small.pth" small_file_world = (Ok m', w')
      ∧ architecture m' = small_src
      ∧ param_store w' m' = Some small_store
      ∧ fc_model.training m' = true
      ∧ fs w' = fs small_file_world
      ∧ heap small_file_world `prefix_of` heap w'.
Proof.
  assert (Hv : valid small_src) by (unfold valid; simpl; repeat constructor).
  split; [exact Hv|].
  exact (load_checkpoint_restores_a_consistent_record "small.pth" small_file_world
           small_src small_store Hv eq_refl eq_refl).
Defined.

(** X5.  The file of cell 11 is a fixed point of load and save: for a
    network with input width 784 and output width 10, saving the model
    that [load_checkpoint] returns writes the file that was loaded. *)
Theorem saving_the_loaded_model_rewrites_the_file :
  ∀ d w m,
    valid d → input_size d = 784%Z → output_size d = 10%Z → built_from d w m →
    ∃ m' w',
      load_checkpoint "checkpoint.pth" (save_checkpoint m w).2 = (Ok m', w')
      ∧ (save_checkpoint m' w').1 = Ok ()
      ∧ fs (save_checkpoint m' w').2 = fs (save_checkpoint m w).2.
Proof.
  intros d w m Hv Hi Ho Hb.
  destruct (built_from_store _ _ _ Hb) as (store & Hstore & Hshapes).
  assert (Hhs : out_features <$> fc_model.hidden_layers m = hidden_sizes d)
    by (destruct Hb as [Hh _]; by eapply hidden_ok_out).
  rewrite (save_checkpoint_run _ _ _ Hstore). cbn [snd].
  set (w1 := set_fs _ w).
  assert (Hf : fs w1 !! "checkpoint.pth"
               = Some (Pickle (pickled_record (input_size d) (output_size d)
                                 (hidden_sizes d) store))).
  { unfold w1. simpl. rewrite lookup_insert_eq. unfold pickled_checkpoint.
    by rewrite Hhs, Hi, Ho. }
  destruct (load_checkpoint_run _ w1 d store Hv Hf Hshapes)
    as (m' & w' & Hrun & Hb' & Hstore' & _ & Hfs & _).
  exists m', w'. split; [done|].
  rewrite (save_checkpoint_run _ _ _ Hstore'). cbn [fst snd set_fs fs].
  split; [done|]. rewrite Hfs.
  assert (Hhs' : out_features <$> fc_model.hidden_layers m' = hidden_sizes d)
    by (destruct Hb' as [Hh _]; by eapply hidden_ok_out).
  rewrite Hhs', <-Hhs. unfold w1. simpl. by rewrite insert_insert_eq.
Qed.

Lemma saving_the_loaded_model_rewrites_the_file_witness :
  valid narrow
  ∧ built_from narrow (World (zero_store narrow) ∅ stream 0) (network_at 0 narrow)
  ∧ ∃ m' w',
      load_checkpoint "checkpoint.pth"
        (save_checkpoint (network_at 0 narrow) (World (zero_store narrow) ∅ stream 0)).2
      = (Ok m', w')
      ∧ (save_checkpoint m' w').1 = Ok ()
      ∧ fs (save_checkpoint m' w').2
        = fs (save_checkpoint (network_at 0 narrow)
                (World (zero_store narrow) ∅ stream 0)).2.
Proof.
  assert (Hv : valid narrow) by (unfold valid; simpl; repeat constructor).
  assert (Hb : built_from narrow (World (zero_store narrow) ∅ stream 0)
                 (network_at 0 narrow)) by (repeat split; reflexivity).
  split; [exact Hv|]. split; [exact Hb|].
  exact (saving_the_loaded_model_rewrites_the_file narrow _ _ Hv eq_refl eq_refl Hb).
Defined.

(** X6.  Cells 10 to 12 in a row.  After [load_state_dict] into a
    second network, whether it raised or not, the save cell and
    [load_checkpoint] give a model of the architecture of the second
    network (with widths 784 and 10), whose parameters hold what the
    load left in the second network. *)
Theorem checkpoint_after_a_load_is_of_the_target :
  ∀ ds dt w ms mt,
    valid dt → input_size dt = 784%Z → output_size dt = 10%Z →
    built_from ds w ms → built_from dt w mt →
    let w1 := (load_state_dict mt (state_dict ms) w).2 in
    ∃ m' w' store,
      load_checkpoint "checkpoint.pth" (save_checkpoint mt w1).2 = (Ok m', w')
      ∧ architecture m' = dt
      ∧ param_store w1 mt = Some store
      ∧ param_store w' m' = Some store.
Proof.
  intros ds dt w ms mt Hv Hi Ho Hs Ht w1.
  assert (Hb1 : built_from dt w1 mt).
  { eapply built_from_same_shapes; [|exact Ht]. unfold w1.
    rewrite (load_networks_run _ _ _ _ _ Hs Ht). simpl.
    apply foldl_param_effect_shapes. }
  destruct (built_from_store _ _ _ Hb1) as (store & Hstore & Hshapes).
  assert (Hhs : out_features <$> fc_model.hidden_layers mt = hidden_sizes dt)
    by (destruct Hb1 as [Hh _]; by eapply hidden_ok_out).
  rewrite (save_checkpoint_run _ _ _ Hstore). cbn [snd].
  set (w2 := set_fs _ w1).
  assert (Hf : fs w2 !! "checkpoint.pth"
               = Some (Pickle (pickled_record (input_size dt) (output_size dt)
                                 (hidden_sizes dt) store))).
  { unfold w2. simpl. rewrite lookup_insert_eq. unfold pickled_checkpoint.
    by rewrite Hhs, Hi, Ho. }
  destruct (load_checkpoint_run _ w2 dt store Hv Hf Hshapes)
    as (m' & w' & Hrun & Hb' & Hstore' & _).
  exists m', w', store. repeat split; try done. by eapply built_from_architecture.
Qed.

Lemma checkpoint_after_a_load_is_of_the_target_witness :
  valid scenario_B
  ∧ built_from scenario_A cell_10_world (network_at 0 scenario_A)
  ∧ built_from scenario_B cell_10_world (network_at 8 scenario_B)
  ∧ (load_state_dict (network_at 8 scenario_B) (state_dict (network_at 0 scenario_A))
       cell_10_world).1 = Raise (RuntimeError cell_10_report)
  ∧ ∃ m' w' store,
      load_checkpoint "checkpoint.pth"
        (save_checkpoint (network_at 8 scenario_B)
           (load_state_dict (network_at 8 scenario_B)
              (state_dict (network_at 0 scenario_A)) cell_10_world).2).2
      = (Ok m', w')
      ∧ architecture m' = scenario_B
      ∧ param_store
          (load_state_dict (network_at 8 scenario_B)
             (state_dict (network_at 0 scenario_A)) cell_10_world).2
          (network_at 8 scenario_B) = Some store
      ∧ param_store w' m' = Some store.
Proof.
  assert (Hv : valid scenario_B) by (unfold valid; simpl; repeat constructor; lia).
  destruct cell_10_built as [Ha Hb].
  split; [exact Hv|]. split; [exact Ha|]. split; [exact Hb|]. split.
  - rewrite (load_networks_run _ _ _ _ _ Ha Hb). reflexivity.
  - exact (checkpoint_after_a_load_is_of_the_target scenario_A scenario_B cell_10_world
             _ _ Hv eq_refl eq_refl Ha Hb).
Defined.

(** ** When a strict load succeeds *)

(** The shapes of the parameters of a network, in the order of its
    state dict. *)
Fixpoint shape_list (prev : Z) (sizes : list Z) (out : Z) : list (list Z) :=
  match sizes with
  | [] => [[out; prev]; [out]]
  | h :: sizes' => [h; prev] :: [h] :: shape_list h sizes' out
  end.

Lemma last_cons_default (sizes : list Z) : ∀ s prev,
  List.last (s :: sizes) prev = List.last sizes s.
Proof.
  induction sizes as [|a sizes IH]; intros s prev; [done|].
  change (List.last (a :: sizes) prev = List.last (a :: sizes) s). by rewrite !IH.
Qed.

Lemma hidden_shapes_snd sizes : ∀ n prev out,
  (concat (view_state <$> hidden_shapes n prev sizes)).*2
  ++ [[out; List.last sizes prev]; [out]]
  = shape_list prev sizes out.
Proof.
  induction sizes as [|s sizes IH]; intros n prev out; [done|].
  cbn [hidden_shapes fmap list_fmap concat shape_list].
  rewrite fmap_app, <-app_assoc. cbn [linear_shapes view_state mv_params fmap list_fmap app snd].
  do 2 f_equal. by rewrite <-(IH (S n) s out), last_cons_default.
Qed.

Lemma param_shapes_snd d :
  (param_shapes d).*2 = shape_list (input_size d) (hidden_sizes d) (output_size d).
Proof.
  unfold param_shapes, module_shapes. simpl.
  rewrite fmap_app, concat_app, fmap_app. simpl. apply hidden_shapes_snd.
Qed.

Lemma shape_list_inj sizes1 : ∀ sizes2 prev1 prev2 out1 out2,
  shape_list prev1 sizes1 out1 = shape_list prev2 sizes2 out2 →
  prev1 = prev2 ∧ sizes1 = sizes2 ∧ out1 = out2.
Proof.
  induction sizes1 as [|h1 sizes1 IH]; intros [|h2 sizes2] prev1 prev2 out1 out2; simpl.
  - by intros [= -> ->].
  - intros [= _ _ _ Hnil]. by destruct sizes2.
  - intros [= _ _ _ Hnil]. by destruct sizes1.
  - intros [= -> -> _ Hrest]. apply IH in Hrest as (_ & -> & ->). done.
Qed.

Lemma param_shapes_inj ds dt : param_shapes ds = param_shapes dt → ds = dt.
Proof.
  intros Heq. apply (f_equal (fmap snd)) in Heq. rewrite !param_shapes_snd in Heq.
  apply shape_list_inj in Heq as (Hi & Hh & Ho).
  destruct ds, dt. simpl in *. by subst.
Qed.

Lemma state_keys_subseteq n n' :
  (∀ k, k ∈ state_keys n → k ∈ state_keys n') → n ≤ n'.
Proof.
  intros Hsub. destruct n as [|n]; [lia|].
  assert (Hin : ["hidden_layers"; pretty n; "weight"] ∈ state_keys (S n)).
  { apply elem_of_state_keys. left. exists n, "weight". split; [lia|]. split; [by left|done]. }
  apply Hsub, elem_of_state_keys in Hin as [(i & p & Hi & _ & [= Hp _])|(p & _ & [=])].
  apply (inj pretty) in Hp. lia.
Qed.

Lemma same_keys_same_values {A} (l1 l2 : list (key * A)) :
  l1.*1 = l2.*1 → NoDup l1.*1 →
  (∀ k a a', (k, a) ∈ l1 → (k, a') ∈ l2 → a = a') →
  l1 = l2.
Proof.
  intros Hk Hnd Hv. apply list_eq. intros j.
  assert (Hj : l1.*1 !! j = l2.*1 !! j) by (by rewrite Hk).
  rewrite !list_lookup_fmap in Hj.
  destruct (l1 !! j) as [[k a]|] eqn:H1, (l2 !! j) as [[k' a']|] eqn:H2; simpl in Hj;
    try done.
  injection Hj as <-. f_equal. f_equal.
  apply (Hv k); by eapply list_elem_of_lookup_2.
Qed.

Lemma strict_report_nil ds dt :
  strict_report (param_shapes ds) (module_shapes dt) = [] → ds = dt.
Proof.
  intros Hnil. symmetry. apply param_shapes_inj.
  assert (Hno : ∀ e, e ∉ strict_report (param_shapes ds) (module_shapes dt))
    by (intros e; rewrite Hnil; apply not_elem_of_nil).
  assert (Hmiss : ∀ k, k ∈ (param_shapes dt).*1 → k ∈ (param_shapes ds).*1).
  { intros k Hk. destruct (decide (k ∈ (param_shapes ds).*1)) as [|Hn]; [done|].
    exfalso. apply (Hno (MissingKeys (missing_keys
                           (check_views (param_shapes ds) (module_shapes dt))))).
    apply elem_of_report. left. split; [done|].
    intros Hempty. eapply not_elem_of_nil. rewrite <-Hempty.
    apply elem_of_missing. split; [exact Hk | exact Hn]. }
  assert (Hunex : ∀ k, k ∈ (param_shapes ds).*1 → k ∈ (param_shapes dt).*1).
  { intros k Hk. destruct (decide (k ∈ (param_shapes dt).*1)) as [|Hn]; [done|].
    exfalso. apply (Hno (UnexpectedKeys (unexpected_keys
                           (check_views (param_shapes ds) (module_shapes dt))))).
    apply elem_of_report. right. left. split; [done|].
    intros Hempty. eapply not_elem_of_nil. rewrite <-Hempty.
    apply elem_of_unexpected. split; [exact Hk | exact Hn]. }
  apply same_keys_same_values.
  - rewrite !param_shapes_keys in *. f_equal.
    apply Nat.le_antisymm; by apply state_keys_subseteq.
  - apply NoDup_param_shapes.
  - intros k s' s Ht Hs. destruct (decide (s = s')) as [|Hne]; [done|].
    exfalso. apply (Hno (SizeMismatch k s s')).
    apply elem_of_report. right. right. apply elem_of_errors.
    exists k, s, s'. split; [done|]. split; [exact Ht|]. split; [|done].
    apply getitem_Some; [apply NoDup_param_shapes | done].
Qed.

(** X7.  Between two networks, [load_state_dict] returns ("All keys
    matched successfully", cell 9) exactly when both have the same
    input width, hidden widths and output width; with any difference it
    raises (cell 10). *)
Theorem strict_load_succeeds_iff_same_architecture :
  ∀ ds dt w ms mt,
    built_from ds w ms → built_from dt w mt →
    ((load_state_dict mt (state_dict ms) w).1 = Ok () ↔ ds = dt).
Proof.
  intros ds dt w ms mt Hs Ht. rewrite (load_networks_run _ _ _ _ _ Hs Ht). cbn [fst].
  split.
  - unfold outcome. case_decide as Hnil; [|done]. intros _. by apply strict_report_nil.
  - intros ->. by rewrite strict_report_same.
Qed.

Lemma strict_load_succeeds_iff_same_architecture_witness :
  built_from small_src two_world two_ms ∧ built_from small_tgt two_world two_mt
  ∧ ((load_state_dict two_mt (state_dict two_ms) two_world).1 = Ok ()
     ↔ small_src = small_tgt).
Proof.
  destruct two_models_built as [Hs Ht].
  split; [exact Hs|]. split; [exact Ht|].
  exact (strict_load_succeeds_iff_same_architecture small_src small_tgt two_world
           two_ms two_mt Hs Ht).
Defined.

(** ** What a call can change *)

(** [w'] has the files of [w] and its tensors, unchanged, and maybe new
    tensors after them. *)
Definition extends (w w' : world) : Prop :=
  fs w' = fs w ∧ heap w `prefix_of` heap w'.

(** [w'] has the files of [w] and as many tensors, and differs from [w]
    in no tensor outside [ls]. *)
Definition writes_only (ls : list loc) (w w' : world) : Prop :=
  fs w' = fs w
  ∧ rng_pos w' = rng_pos w
  ∧ (t_shape <$> heap w') = (t_shape <$> heap w)
  ∧ ∀ l, l ∉ ls → heap w' !! l = heap w !! l.

#[global] Instance extends_preorder : PreOrder extends.
Proof.
  split.
  - intros w. split; [done|]. reflexivity.
  - intros w1 w2 w3 [Hf1 Hp1] [Hf2 Hp2]. split; [congruence|]. by etrans.
Qed.

#[global] Instance writes_only_preorder ls : PreOrder (writes_only ls).
Proof.
  split.
  - intros w. by split.
  - intros w1 w2 w3 (Hf1 & Hr1 & Hs1 & Ho1) (Hf2 & Hr2 & Hs2 & Ho2).
    split; [congruence|]. split; [congruence|]. split; [congruence|].
    intros l Hl. by rewrite Ho2, Ho1.
Qed.

Lemma writes_only_mono ls ls' w w' :
  (∀ l, l ∈ ls → l ∈ ls') → writes_only ls w w' → writes_only ls' w w'.
Proof.
  intros Hsub (Hf & Hr & Hs & Ho). split; [done|]. split; [done|]. split; [done|].
  intros l Hl. apply Ho. intros Hin. by apply Hl, Hsub.
Qed.

Lemma bind_rel {A B} (R : relation world) `{!Transitive R}
    (c : M A) (k : A → M B) w :
  R w (c w).2 → (∀ a, R (c w).2 (k a (c w).2).2) → R w ((c ≫= k) w).2.
Proof.
  intros Hc Hk. rewrite bind_run. destruct (c w) as [[a|e] w1]; simpl in *; [|done].
  etrans; [exact Hc | apply Hk].
Qed.

Lemma foldM_rel {A B} (R : relation world) `{!PreOrder R}
    (f : A → B → M A) (l : list B) :
  (∀ a x w, x ∈ l → R w (f a x w).2) → ∀ a w, R w (foldM f a l w).2.
Proof.
  induction l as [|x l IH]; intros Hf a w; simpl; [reflexivity|].
  apply bind_rel; [apply _ | apply Hf; by left |].
  intros a'. apply IH. intros a'' y w' Hy. apply Hf. by right.
Qed.


Lemma read_world {R : relation world} `{!Reflexive R} l w : R w (read l w).2.
Proof. unfold read. destruct (heap w !! l); reflexivity. Qed.

Lemma copy__writes_only dst src w : writes_only [dst] w (copy_ dst src w).2.
Proof.
  unfold copy_, read, write, mbind, M_bind.
  destruct (heap w !! src) as [s|]; [|reflexivity].
  destruct (heap w !! dst) as [d|] eqn:Hd; [|reflexivity].
  simpl. split; [done|]. split; [done|]. split.
  - by apply insert_same_shape.
  - intros l Hl. apply list_lookup_insert_ne. intros ->. apply Hl. by left.
Qed.

Lemma load_param_writes_only sd prefix a np w :
  writes_only [np.2] w (load_param sd prefix a np w).2.
Proof.
  unfold load_param. destruct (getitem sd (prefix ++ [np.1])) as [ip|]; [|reflexivity].
  apply bind_rel; [apply _ | apply read_world |]. intros i.
  apply bind_rel; [apply _ | apply read_world |]. intros p.
  case_decide; [|reflexivity].
  apply bind_rel; [apply _ | apply copy__writes_only |]. intros _. reflexivity.
Qed.

Lemma _load_from_state_dict_writes_only sd a (v : module_view loc) w :
  writes_only (mv_params v).*2 w (_load_from_state_dict sd a v w).2.
Proof.
  unfold _load_from_state_dict. apply bind_rel; [apply _ | | intros a'; reflexivity].
  apply foldM_rel; [apply _|]. intros a' np w' Hnp.
  eapply writes_only_mono; [|apply load_param_writes_only].
  intros l ->%list_elem_of_singleton. apply list_elem_of_fmap. by exists np.
Qed.

Lemma view_state_locs (v : module_view loc) : (view_state v).*2 = (mv_params v).*2.
Proof.
  unfold view_state. rewrite <-list_fmap_compose. apply list_fmap_ext.
  by intros _ [name l] _.
Qed.

Lemma load_state_dict_writes_only {T} `{nn_Module T} (m : T) sd w :
  writes_only (state_dict m).*2 w (load_state_dict m sd w).2.
Proof.
  unfold load_state_dict. apply bind_rel; [apply _ | |].
  - apply foldM_rel; [apply _|]. intros a v w' Hv.
    eapply writes_only_mono; [|apply _load_from_state_dict_writes_only].
    intros l Hl. unfold state_dict. rewrite <-view_state_locs in Hl.
    apply list_elem_of_fmap in Hl as (e & -> & He).
    apply list_elem_of_fmap. exists e. split; [done|].
    apply elem_of_concat. exists (view_state v). split; [done|].
    apply list_elem_of_fmap. by exists v.
  - intros a. case_decide; reflexivity.
Qed.

(** X8.  [load_state_dict], on any module and any state dict, whether
    it returns or raises, writes no file, allocates nothing, keeps the
    shape of every tensor and leaves the elements of every tensor that
    is not a parameter of the module as they were. *)
Theorem load_state_dict_writes_parameters_only :
  ∀ {T} `{nn_Module T} (m : T) sd w,
    let w' := (load_state_dict m sd w).2 in
    fs w' = fs w
    ∧ rng_pos w' = rng_pos w
    ∧ (t_shape <$> heap w') = (t_shape <$> heap w)
    ∧ ∀ l, l ∉ (state_dict m).*2 → heap w' !! l = heap w !! l.
Proof.
  intros T HT m sd w w'. exact (load_state_dict_writes_only m sd w).
Qed.

Lemma bind_same_world {A B} (R : relation world) (c : M A) (k : A → M B) w0 w :
  (c w).2 = w → R w0 w → (∀ a, R w0 (k a w).2) → R w0 ((c ≫= k) w).2.
Proof.
  intros Hc Hw Hk. rewrite bind_run. destruct (c w) as [[a|e] w1]; simpl in *; subst w1.
  - apply Hk.
  - done.
Qed.










(** ** [torch.load] after [torch.save] *)









(** * The notebook "Inference and Validation": the forward passes *)

(** The [Classifier] of the third cell: the layers of
    [DropoutClassifier], no dropout. *)
Module Classifier.

Record t := {
  fc1 : Linear;
  fc2 : Linear;
  fc3 : Linear;
  fc4 : Linear;
  training : bool
}.

(** [__init__] *)
Definition init : M t :=
  l1 ← nn_Linear 784 256;
  l2 ← nn_Linear 256 128;
  l3 ← nn_Linear 128 64;
  l4 ← nn_Linear 64 10;
  mret {| fc1 := l1; fc2 := l2; fc3 := l3; fc4 := l4; training := true |}.

Section Forward.

Variable log_softmax : tensor → tensor.

Definition forward (self : t) (x : tensor) : M tensor :=
  x ← lift (F.flatten x);
  x ← Linear_call (fc1 self) x;
  x ← Linear_call (fc2 self) (F.relu x);
  x ← Linear_call (fc3 self) (F.relu x);
  x ← Linear_call (fc4 self) (F.relu x);
  mret (log_softmax x).

End Forward.

End Classifier.

(** A tensor with as many elements as its shape says. *)
Definition whole (t : tensor) : Prop := length (t_data t) = Z.to_nat (numel (t_shape t)).

(** The four layers with the widths of [__init__], their parameters in
    the store with the shapes of these widths. *)
Definition layers_ok (h : list tensor) (l1 l2 l3 l4 : Linear) : Prop :=
  linear_ok h 784 256 l1 ∧ linear_ok h 256 128 l2
  ∧ linear_ok h 128 64 l3 ∧ linear_ok h 64 10 l4.

Definition classifier_ok (h : list tensor) (m : Classifier.t) : Prop :=
  layers_ok h (Classifier.fc1 m) (Classifier.fc2 m) (Classifier.fc3 m) (Classifier.fc4 m).

Definition dropout_classifier_ok (h : list tensor) (m : DropoutClassifier.t) : Prop :=
  layers_ok h (DropoutClassifier.fc1 m) (DropoutClassifier.fc2 m)
    (DropoutClassifier.fc3 m) (DropoutClassifier.fc4 m).

Lemma rows_length n k l : length (F.rows n k l) = n.
Proof. revert l. induction n as [|n IH]; intros l; simpl; [done|]. by rewrite IH. Qed.

Lemma concat_length_const {A} (ls : list (list A)) c :
  Forall (λ l, length l = c) ls → length (concat ls) = length ls * c.
Proof.
  induction 1 as [|l ls Hl _ IH]; [done|]. simpl. rewrite length_app, IH, Hl. done.
Qed.

Lemma linear_shape x W b n i o :
  t_shape x = [n; i] → t_shape W = [o; i] → t_shape b = [o] →
  ∃ y, F.linear x W b = Ok y ∧ t_shape y = [n; o]
       ∧ (whole b → length (t_data y) = Z.to_nat n * Z.to_nat o).
Proof.
  intros Hx HW Hb. unfold F.linear. rewrite Hx, HW, Hb, decide_True by done.
  eexists. split; [done|]. split; [done|]. intros Hwhole. cbn [t_data].
  rewrite (concat_length_const _ (Z.to_nat o)).
  - by rewrite length_fmap, rows_length.
  - apply Forall_fmap, Forall_forall. intros r _. simpl.
    rewrite length_zip_with, length_fmap, rows_length, Hwhole, Hb.
    unfold numel. simpl. rewrite Z.mul_1_r. lia.
Qed.

Lemma linear_mismatch x W b n i i' o :
  t_shape x = [n; i'] → t_shape W = [o; i] → t_shape b = [o] → i' ≠ i →
  F.linear x W b = Raise ShapeError.
Proof.
  intros Hx HW Hb Hne. unfold F.linear. rewrite Hx, HW, Hb, decide_False; [done|].
  by intros [? _].
Qed.

Lemma Linear_call_shape l x w n i o :
  linear_ok (heap w) i o l → Forall whole (heap w) → t_shape x = [n; i] →
  ∃ y, Linear_call l x w = (Ok y, w) ∧ t_shape y = [n; o]
       ∧ length (t_data y) = Z.to_nat n * Z.to_nat o.
Proof.
  intros (_ & _ & HW & Hb) Hwhole Hx.
  apply shape_at_Some in HW as (W & HW & HsW), Hb as (b & Hb & Hsb).
  destruct (linear_shape x W b n i o Hx HsW Hsb) as (y & Hy & Hs & Hlen).
  exists y. rewrite (Linear_call_run _ _ _ _ _ HW Hb), Hy. split; [done|]. split; [done|].
  apply Hlen. rewrite Forall_forall in Hwhole. apply Hwhole.
  by eapply list_elem_of_lookup_2.
Qed.

Lemma Linear_call_mismatch l x w n i i' o :
  linear_ok (heap w) i o l → t_shape x = [n; i'] → i' ≠ i →
  Linear_call l x w = (Raise ShapeError, w).
Proof.
  intros (_ & _ & HW & Hb) Hx Hne.
  apply shape_at_Some in HW as (W & HW & HsW), Hb as (b & Hb & Hsb).
  rewrite (Linear_call_run _ _ _ _ _ HW Hb).
  by rewrite (linear_mismatch x W b n i i' o).
Qed.

(** One hidden stage of [DropoutClassifier.forward]: the layer, ReLU,
    dropout with one draw for each of the [n * o] activations. *)
Lemma dropout_stage {B} l (k : tensor → M B) x w n i o :
  linear_ok (heap w) i o l → Forall whole (heap w) → t_shape x = [n; i] →
  ∃ y, (x' ← Linear_call l x; x'' ← F.dropout (F.relu x') true; k x'') w
       = k y (World (heap w) (fs w) (rng w) (rng_pos w + Z.to_nat n * Z.to_nat o))
       ∧ t_shape y = [n; o].
Proof.
  intros Hl Hwhole Hx.
  destruct (Linear_call_shape l x w n i o Hl Hwhole Hx) as (y & Hy & Hs & Hlen).
  rewrite (bind_ok _ _ _ _ _ Hy).
  assert (Hrelu : length (t_data (F.relu y)) = Z.to_nat n * Z.to_nat o)
    by (simpl; by rewrite length_fmap).
  rewrite (bind_ok _ _ _ _ _ (dropout_run (F.relu y) w _ Hrelu)).
  eexists. split; [done|]. done.
Qed.

(** One hidden stage of [Classifier.forward]. *)
Lemma relu_stage {B} l (k : tensor → M B) x w n i o :
  linear_ok (heap w) i o l → Forall whole (heap w) → t_shape x = [n; i] →
  ∃ y, (x' ← Linear_call l x; k (F.relu x')) w = k y w ∧ t_shape y = [n; o].
Proof.
  intros Hl Hwhole Hx.
  destruct (Linear_call_shape l x w n i o Hl Hwhole Hx) as (y & Hy & Hs & Hlen).
  rewrite (bind_ok _ _ _ _ _ Hy). by exists (F.relu y).
Qed.

Lemma flatten_shape x n rest :
  t_shape x = n :: rest →
  ∃ y, F.flatten x = Ok y ∧ t_shape y = [n; numel rest].
Proof. intros Hx. unfold F.flatten. rewrite Hx. by eexists. Qed.

Lemma trained_store_whole : Forall whole trained_store.
Proof.
  unfold trained_store, whole, zeros, one_then_zeros.
  repeat (apply Forall_cons; split); try apply Forall_nil;
    cbn [t_data t_shape length]; rewrite ?repeat_length; try done.
Qed.

(** The network of the first cells with the parameters in a store. *)
Definition plain_classifier_0 : Classifier.t :=
  {| Classifier.fc1 := {| in_features := 784; out_features := 256; weight := 0; bias := 1 |};
     Classifier.fc2 := {| in_features := 256; out_features := 128; weight := 2; bias := 3 |};
     Classifier.fc3 := {| in_features := 128; out_features := 64; weight := 4; bias := 5 |};
     Classifier.fc4 := {| in_features := 64; out_features := 10; weight := 6; bias := 7 |};
     Classifier.training := true |}.

(** A batch of 64 images, as the loader of the notebook yields them, and
    a batch of images of 27 by 28 pixels. *)
Definition batch_64 : tensor := zeros [64; 1; 28; 28]%Z.
Definition short_batch : tensor := zeros [64; 1; 27; 28]%Z.

(** X11.  The forward pass of [Classifier], for parameters of the
    shapes of [__init__]: on a batch of [n > 0] images of 784 pixels in
    all it returns [F.log_softmax] of a tensor of shape [(n, 10)] (cell 5
    prints [torch.Size([64, 10])]) and leaves the world as it is, the
    generator included; on images of another size it raises the error
    of the first layer. *)
Theorem classifier_forward_shape :
  ∀ ls m x w n rest,
    classifier_ok (heap w) m → Forall whole (heap w) →
    t_shape x = n :: rest → (0 < n)%Z →
    (numel rest = 784%Z →
       ∃ y, Classifier.forward ls m x w = (Ok (ls y), w) ∧ t_shape y = [n; 10]%Z)
    ∧ (numel rest ≠ 784%Z → Classifier.forward ls m x w = (Raise ShapeError, w)).
Proof.
  intros ls m x w n rest (H1 & H2 & H3 & H4) Hwhole Hx Hn.
  destruct (flatten_shape x n rest Hx) as (x0 & Hflat & Hs0).
  unfold Classifier.forward.
  assert (H0 : lift (F.flatten x) w = (Ok x0, w)) by (unfold lift; by rewrite Hflat).
  rewrite (bind_ok _ _ _ _ _ H0). split.
  - intros Hrest. rewrite Hrest in Hs0.
    destruct (relu_stage (Classifier.fc1 m)
                (λ x, x ← Linear_call (Classifier.fc2 m) x;
                      x ← Linear_call (Classifier.fc3 m) (F.relu x);
                      x ← Linear_call (Classifier.fc4 m) (F.relu x);
                      mret (ls x)) x0 w n _ _ H1 Hwhole Hs0) as (x1 & -> & Hs1).
    destruct (relu_stage (Classifier.fc2 m)
                (λ x, x ← Linear_call (Classifier.fc3 m) x;
                      x ← Linear_call (Classifier.fc4 m) (F.relu x);
                      mret (ls x)) x1 w n _ _ H2 Hwhole Hs1) as (x2 & -> & Hs2).
    destruct (relu_stage (Classifier.fc3 m)
                (λ x, x ← Linear_call (Classifier.fc4 m) x; mret (ls x))
                x2 w n _ _ H3 Hwhole Hs2) as (x3 & -> & Hs3).
    destruct (Linear_call_shape _ x3 w n _ _ H4 Hwhole Hs3) as (y & Hy & Hs & _).
    rewrite (bind_ok _ _ _ _ _ Hy). by exists y.
  - intros Hrest.
    by rewrite (bind_raise _ _ _ _ _ (Linear_call_mismatch _ x0 w n _ _ _ H1 Hs0 Hrest)).
Qed.

Lemma classifier_forward_shape_witness :
  classifier_ok trained_store plain_classifier_0
  ∧ Forall whole trained_store
  ∧ (∀ ls, ∃ y, Classifier.forward ls plain_classifier_0 batch_64
                  (World trained_store ∅ stream 0)
                = (Ok (ls y), World trained_store ∅ stream 0)
                ∧ t_shape y = [64; 10]%Z)
  ∧ (∀ ls, Classifier.forward ls plain_classifier_0 short_batch
             (World trained_store ∅ stream 0)
           = (Raise ShapeError, World trained_store ∅ stream 0)).
Proof.
  assert (Hok : classifier_ok trained_store plain_classifier_0)
    by (repeat split; reflexivity).
  split; [exact Hok|]. split; [exact trained_store_whole|]. split; intros ls.
  - apply (proj1 (classifier_forward_shape ls plain_classifier_0 batch_64
                    (World trained_store ∅ stream 0) 64 [1; 28; 28]%Z
                    Hok trained_store_whole eq_refl eq_refl)).
    reflexivity.
  - apply (proj2 (classifier_forward_shape ls plain_classifier_0 short_batch
                    (World trained_store ∅ stream 0) 64 [1; 27; 28]%Z
                    Hok trained_store_whole eq_refl eq_refl)).
    discriminate.
Defined.

(** X12.  The forward pass of [DropoutClassifier], in training and in
    evaluation mode alike, for parameters of the shapes of [__init__]:
    on a batch of [n > 0] images of 784 pixels it returns [F.log_softmax]
    of a tensor of shape [(n, 10)], changes no tensor and no file, and
    takes from the generator one draw for each of the 256 + 128 + 64
    hidden activations of each image; on images of another size it
    raises the error of the first layer before any draw. *)
Theorem dropout_forward_shape_and_draws :
  ∀ ls m mode x w n rest,
    dropout_classifier_ok (heap w) m → Forall whole (heap w) →
    t_shape x = n :: rest → (0 < n)%Z →
    (numel rest = 784%Z →
       ∃ y, DropoutClassifier.forward ls (train mode m) x w
            = (Ok (ls y), World (heap w) (fs w) (rng w) (rng_pos w + 448 * Z.to_nat n))
            ∧ t_shape y = [n; 10]%Z)
    ∧ (numel rest ≠ 784%Z →
         DropoutClassifier.forward ls (train mode m) x w = (Raise ShapeError, w)).
Proof.
  intros ls m mode x w n rest (H1 & H2 & H3 & H4) Hwhole Hx Hn.
  destruct (flatten_shape x n rest Hx) as (x0 & Hflat & Hs0).
  unfold DropoutClassifier.forward. cbn [train DropoutClassifier_Module].
  cbn [DropoutClassifier.set_training DropoutClassifier.fc1 DropoutClassifier.fc2
       DropoutClassifier.fc3 DropoutClassifier.fc4].
  assert (H0 : lift (F.flatten x) w = (Ok x0, w)) by (unfold lift; by rewrite Hflat).
  rewrite (bind_ok _ _ _ _ _ H0). split.
  - intros Hrest. rewrite Hrest in Hs0.
    destruct (dropout_stage (DropoutClassifier.fc1 m)
                (λ x, x ← Linear_call (DropoutClassifier.fc2 m) x;
                      x ← F.dropout (F.relu x) true;
                      x ← Linear_call (DropoutClassifier.fc3 m) x;
                      x ← F.dropout (F.relu x) true;
                      x ← Linear_call (DropoutClassifier.fc4 m) x;
                      mret (ls x)) x0 w n _ _ H1 Hwhole Hs0) as (x1 & -> & Hs1).
    set (w1 := World _ _ _ _).
    destruct (dropout_stage (DropoutClassifier.fc2 m)
                (λ x, x ← Linear_call (DropoutClassifier.fc3 m) x;
                      x ← F.dropout (F.relu x) true;
                      x ← Linear_call (DropoutClassifier.fc4 m) x;
                      mret (ls x)) x1 w1 n _ _ H2 Hwhole Hs1) as (x2 & -> & Hs2).
    set (w2 := World _ _ _ _).
    destruct (dropout_stage (DropoutClassifier.fc3 m)
                (λ x, x ← Linear_call (DropoutClassifier.fc4 m) x; mret (ls x))
                x2 w2 n _ _ H3 Hwhole Hs2) as (x3 & -> & Hs3).
    set (w3 := World _ _ _ _).
    destruct (Linear_call_shape _ x3 w3 n _ _ H4 Hwhole Hs3) as (y & Hy & Hs & _).
    rewrite (bind_ok _ _ _ _ _ Hy). exists y. split; [|done].
    unfold w3, w2, w1. simpl. do 2 f_equal. lia.
  - intros Hrest.
    by rewrite (bind_raise _ _ _ _ _ (Linear_call_mismatch _ x0 w n _ _ _ H1 Hs0 Hrest)).
Qed.

Lemma dropout_forward_shape_and_draws_witness :
  dropout_classifier_ok trained_store classifier_0
  ∧ Forall whole trained_store
  ∧ (∀ ls, ∃ y, DropoutClassifier.forward ls (eval classifier_0) batch_64
                  (World trained_store ∅ stream 0)
                = (Ok (ls y), World trained_store ∅ stream (448 * 64))
                ∧ t_shape y = [64; 10]%Z)
  ∧ (∀ ls, DropoutClassifier.forward ls (eval classifier_0) short_batch
             (World trained_store ∅ stream 0)
           = (Raise ShapeError, World trained_store ∅ stream 0)).
Proof.
  assert (Hok : dropout_classifier_ok trained_store classifier_0)
    by (repeat split; reflexivity).
  split; [exact Hok|]. split; [exact trained_store_whole|]. split; intros ls.
  - apply (proj1 (dropout_forward_shape_and_draws ls classifier_0 false batch_64
                    (World trained_store ∅ stream 0) 64 [1; 28; 28]%Z
                    Hok trained_store_whole eq_refl eq_refl)).
    reflexivity.
  - apply (proj2 (dropout_forward_shape_and_draws ls classifier_0 false short_batch
                    (World trained_store ∅ stream 0) 64 [1; 27; 28]%Z
                    Hok trained_store_whole eq_refl eq_refl)).
    discriminate.
Defined.

(** ** What a forward pass and a constructor can change *)

(** [w'] has the tensors and files of [w]; the generator may have
    advanced. *)
Definition reads_only (w w' : world) : Prop :=
  heap w' = heap w ∧ fs w' = fs w ∧ rng_pos w ≤ rng_pos w'.

#[global] Instance reads_only_preorder : PreOrder reads_only.
Proof.
  split.
  - intros w. by split.
  - intros w1 w2 w3 (Hh1 & Hf1 & Hr1) (Hh2 & Hf2 & Hr2).
    split; [congruence|]. split; [congruence|]. lia.
Qed.

Lemma Linear_call_world l x w : (Linear_call l x w).2 = w.
Proof.
  unfold Linear_call, read, lift, mbind, M_bind.
  destruct (heap w !! weight l); [|done]. by destruct (heap w !! bias l).
Qed.

Lemma dropout_reads_only t training w : reads_only w (F.dropout t training w).2.
Proof.
  destruct training; [|reflexivity]. simpl. split; [done|]. split; [done|]. simpl. lia.
Qed.

(** X13.  A forward pass, whatever the input, the parameters and the
    outcome, writes nothing: that of [Classifier] leaves the world as it
    is, that of [DropoutClassifier] leaves every tensor and every file
    as it is and can only advance the generator. *)
Theorem forward_writes_nothing :
  (∀ ls m x w, (Classifier.forward ls m x w).2 = w)
  ∧ (∀ ls m x w,
       let w' := (DropoutClassifier.forward ls m x w).2 in
       heap w' = heap w ∧ fs w' = fs w ∧ rng_pos w ≤ rng_pos w').
Proof.
  split.
  - intros ls m x w. unfold Classifier.forward. symmetry.
    apply (bind_same_world eq); [done | done |]. intros x0.
    apply (bind_same_world eq); [apply Linear_call_world | done |]. intros x1.
    apply (bind_same_world eq); [apply Linear_call_world | done |]. intros x2.
    apply (bind_same_world eq); [apply Linear_call_world | done |]. intros x3.
    apply (bind_same_world eq); [apply Linear_call_world | done |]. intros x4.
    done.
  - intros ls m x w w'. change (reads_only w w'). unfold w', DropoutClassifier.forward.
    apply bind_same_world; [done | reflexivity |]. intros x0.
    apply bind_same_world; [apply Linear_call_world | reflexivity |]. intros x1.
    apply bind_rel; [apply _ | apply dropout_reads_only |]. intros x1'.
    set (w1 := (F.dropout _ _ _).2).
    apply bind_same_world; [apply Linear_call_world | reflexivity |]. intros x2.
    apply bind_rel; [apply _ | apply dropout_reads_only |]. intros x2'.
    set (w2 := (F.dropout _ _ _).2).
    apply bind_same_world; [apply Linear_call_world | reflexivity |]. intros x3.
    apply bind_rel; [apply _ | apply dropout_reads_only |]. intros x3'.
    set (w3 := (F.dropout _ _ _).2).
    apply bind_same_world; [apply Linear_call_world | reflexivity |]. intros x4.
    reflexivity.
Qed.




(** ** Cells 7, 8 and 10: the state dict of the file into another network *)

Definition cells_7_to_8 (model : fc_model.t) : M (list (key * loc)) :=
  _ ← save_state_dict model;
  state_dict ← torch.load "checkpoint.pth";
  as_loaded_state_dict state_dict.

(** X15.  Cell 10 loads the state dict that cell 8 read from the file
    of cell 7, not the one of the live model.  Between two networks
    this makes no difference to the outcome: the load from the file
    returns or raises as the load from the live state dict does, with
    the same report. *)
Theorem load_from_file_reports_as_load_from_model :
  ∀ ds dt w ms mt,
    built_from ds w ms → built_from dt w mt →
    ∃ sd w',
      cells_7_to_8 ms w = (Ok sd, w')
      ∧ sd.*1 = (state_dict ms).*1
      ∧ (∀ l, l ∈ sd.*2 → length (heap w) ≤ l)
      ∧ (load_state_dict mt sd w').1 = (load_state_dict mt (state_dict ms) w).1.
Proof.
  intros ds dt w ms mt Hs Ht.
  destruct (built_from_store _ _ _ Hs) as (store & Hstore & Hshapes).
  unfold cells_7_to_8.
  rewrite (bind_ok _ _ _ _ _ (save_state_dict_run _ _ _ Hstore)).
  set (w1 := set_fs _ w).
  rewrite (bind_ok _ _ _ _ _
             (load_state_dict_file_run "checkpoint.pth" w1 store (lookup_insert_eq _ _ _))).
  set (sd := zip store.*1 _). set (w2 := set_heap _ w1).
  exists sd, w2. split; [done|]. split; [|split].
  - unfold sd. rewrite fst_zip by (by rewrite length_fmap, length_seq).
    rewrite (built_from_keys _ _ _ Hs), <-Hshapes, <-list_fmap_compose. done.
  - intros l. unfold sd. rewrite unpickled_locs, elem_of_seq. simpl. lia.
  - rewrite (load_networks_run _ _ _ _ _ Hs Ht). cbn [fst].
    assert (Hsrc : shapes_of (heap w2) sd = Some (param_shapes ds)).
    { rewrite <-Hshapes. apply values_of_shapes, values_of_unpickled. }
    assert (Ht2 : built_from dt w2 mt) by (by eapply (built_from_grow dt w w2)).
    by rewrite (load_state_dict_run (H := Network_Module) mt sd _ _ w2 Hsrc
                  (built_from_views _ _ _ Ht2)).
Qed.

Lemma load_from_file_reports_as_load_from_model_witness :
  built_from scenario_A cell_10_world (network_at 0 scenario_A)
  ∧ built_from scenario_B cell_10_world (network_at 8 scenario_B)
  ∧ ∃ sd w',
      cells_7_to_8 (network_at 0 scenario_A) cell_10_world = (Ok sd, w')
      ∧ sd.*1 = (state_dict (network_at 0 scenario_A)).*1
      ∧ (∀ l, l ∈ sd.*2 → length (heap cell_10_world) ≤ l)
      ∧ (load_state_dict (network_at 8 scenario_B) sd w').1
        = (load_state_dict (network_at 8 scenario_B)
             (state_dict (network_at 0 scenario_A)) cell_10_world).1.
Proof.
  destruct cell_10_built as [Ha Hb].
  split; [exact Ha|]. split; [exact Hb|].
  exact (load_from_file_reports_as_load_from_model scenario_A scenario_B cell_10_world
           _ _ Ha Hb).
Defined.
